(** * ALU Telemetry: the ghost engine and the snapshot assembler

    A shallow embedding of [ghost_manager.py], of the snapshot, trampoline
    and hook code of [data_extractor.py] and of the recording loop of
    [main.py], with the properties of the design document proved, or
    refuted, on it, followed by further properties of the code.

    Conventions.
    - A Python [dict] with string keys is a [gmap string _]; [d.get(k)] is
      [get d k], which is [VNone] when the key is absent.
    - A Python [float] is a primitive binary64 float, so [<=], [==], [-],
      [/], [*] and [+] are the IEEE operations CPython uses.  A Python [int]
      is a [Z].
    - Values follow the schema of the module docstring of
      [ghost_manager.py]: [timer_value] holds an int or null,
      [race_completion_pct] and [race_completion] hold a float or null.  The
      typed accessors below read the slots at these types.
    - Code that raises returns [Raise e]; code that mutates [self] or the
      disk takes the state and returns the new one. *)

From Stdlib Require Import ZArith List Floats Lia Bool Sorted.
From Stdlib.Strings Require Import Byte.
From stdpp Require Import base option list gmap strings.
Import ListNotations.
Open Scope Z_scope.

(** ** Python values *)

Inductive value : Type :=
  | VNone
  | VInt (n : Z)
  | VFloat (x : float)
  | VStr (s : string).

(** [d.get(k)] *)
Definition get (d : gmap string value) (k : string) : value :=
  default VNone (d !! k).

Definition as_int (v : value) : option Z :=
  match v with VInt n => Some n | _ => None end.

Definition as_float (v : value) : option float :=
  match v with
  | VFloat x => Some x
  | _ => None
  end.

(** The conversion of an int to a float that arithmetic between the two
    performs: the nearest binary64, ties to even.  (Beyond the range of
    binary64 CPython raises OverflowError; the conversion here yields an
    infinity.) *)
Definition float_of_int (n : Z) : float :=
  SF2Prim (binary_normalize prec emax n 0 false).

(** [int(x)]: truncation toward zero.  ([int] of an infinity or of a NaN
    raises in CPython; it is 0 here.) *)
Definition int_of_float (x : float) : Z :=
  match Prim2SF x with
  | S754_finite s m e =>
      let a := Z.shiftl (Z.pos m) e in
      if s then - a else a
  | _ => 0
  end.

(** [sorted(l, key=key)] and [l.sort(key=key)] for float keys: a stable
    sort that compares keys with [<] only.  On keys without NaN every
    stable sort returns this list. *)
Section Sorting.
Context {A : Type} (key : A -> float).

Fixpoint insert_by (x : A) (l : list A) : list A :=
  match l with
  | [] => [x]
  | y :: l' =>
      if PrimFloat.ltb (key y) (key x) then y :: insert_by x l'
      else x :: l
  end.

Fixpoint sorted (l : list A) : list A :=
  match l with
  | [] => []
  | x :: l' => insert_by x (sorted l')
  end.
End Sorting.

(** ** ghost_manager.py *)

(** The two slots of a frame the ghost engine reads. *)
Definition timer_value (f : gmap string value) : option Z :=
  as_int (get f "timer_value").

Definition race_completion_pct (f : gmap string value) : option float :=
  as_float (get f "race_completion_pct").

(** [f["timer_value"]] and [f["race_completion_pct"]], used by the source
    only on frames that passed the filters below. *)
Definition tv (f : gmap string value) : Z := default 0 (timer_value f).
Definition rp (f : gmap string value) : float :=
  default 0%float (race_completion_pct f).

(** [sp.get("race_completion", 0.0)] and [sp.get("name", "")] *)
Definition race_completion (sp : gmap string value) : float :=
  match sp !! "race_completion" with
  | None => 0%float
  | Some v => default 0%float (as_float v)
  end.

Definition split_name (sp : gmap string value) : value :=
  default (VStr "") (sp !! "name").

Definition EMPTY_GHOST : gmap string (list (gmap string value)) :=
  <["splits" := []]> (<["best_splits" := []]> (<["race_data" := []]> ∅)).

Definition EMPTY_FRAME : gmap string value :=
  list_to_map
    (map (fun k => (k, VNone))
       ["timer_value"; "race_completion_pct"; "velocity"; "car_angle";
        "car_position"; "camera_angle"; "camera_position"; "checkpoint";
        "nitro_bar_pct"; "nitro_state"; "drift_state"; "360_state"; "gear";
        "engine_rpm"; "acceleration"]).

(** *** _compute_best_splits and its local functions *)

(** One turn of the loop over [sorted_splits]: the region that ends at the
    split is appended and the split becomes [prev]. *)
Definition boundary_step (acc : list (float * float * value) * float)
    (sp : gmap string value) : list (float * float * value) * float :=
  let '(bs, prev) := acc in
  let end_ := race_completion sp in
  (bs ++ [(prev, end_, split_name sp)], end_).

(** [boundaries]: the list of [(start_pct, end_pct, name)]. *)
Definition boundaries (splits : list (gmap string value))
  : list (float * float * value) :=
  let sorted_splits := sorted race_completion splits in
  match sorted_splits with
  | [] => [(0%float, 100%float, VStr "Full Run")]
  | _ =>
      let '(bs, prev) := fold_left boundary_step sorted_splits ([], 0%float) in
      (* Final region from last split to finish *)
      bs ++ [(prev, 100%float, VStr "Finish")]
  end.

Definition slim_entry (t : Z) (p : value) : gmap string value :=
  <["timer_value" := VInt t]> (<["race_completion_pct" := p]> ∅).

Fixpoint _slim (frames : list (gmap string value)) (timer_offset : Z)
  : list (gmap string value) :=
  match frames with
  | [] => []
  | f :: frames' =>
      let rp_ := get f "race_completion_pct" in
      match timer_value f with
      | Some t => slim_entry (t + timer_offset) rp_ :: _slim frames' timer_offset
      | None => _slim frames' timer_offset
      end
  end.

Definition in_region (start_pct end_pct : float) (f : gmap string value) : bool :=
  match race_completion_pct f with
  | Some p => PrimFloat.leb start_pct p && PrimFloat.leb p end_pct
  | None => false
  end.

Definition _frames_in_region (frames : list (gmap string value))
    (start_pct end_pct : float) : list (gmap string value) :=
  List.filter (in_region start_pct end_pct) frames.

Definition is_before (at_pct : float) (f : gmap string value) : bool :=
  match race_completion_pct f, timer_value f with
  | Some p, Some _ => PrimFloat.leb p at_pct
  | _, _ => false
  end.

Definition is_after (at_pct : float) (f : gmap string value) : bool :=
  match race_completion_pct f, timer_value f with
  | Some p, Some _ => PrimFloat.leb at_pct p
  | _, _ => false
  end.

(** The interpolation [f0.t + t * (f1.t - f0.t)] with
    [t = (at - p0) / (p1 - p0)], as a float. *)
Definition lerp (t0 : Z) (p0 : float) (t1 : Z) (p1 : float) (at_pct : float)
  : float :=
  let t := PrimFloat.div (PrimFloat.sub at_pct p0) (PrimFloat.sub p1 p0) in
  PrimFloat.add (float_of_int t0) (PrimFloat.mul t (float_of_int (t1 - t0))).

Definition _split_timer (frames : list (gmap string value)) (at_pct : float)
  : option Z :=
  let before := List.filter (is_before at_pct) frames in
  let after := List.filter (is_after at_pct) frames in
  match last before, head after with
  | None, None => None
  | None, Some a0 => Some (tv a0)
  | Some b, None => Some (tv b)
  | Some f0, Some f1 =>
      let p0 := rp f0 in
      let p1 := rp f1 in
      if PrimFloat.eqb p0 p1 then Some (tv f0)
      else Some (int_of_float (lerp (tv f0) p0 (tv f1) p1 at_pct))
  end.

(** One turn of the per-region loop: [assembled_best] after the region. *)
Definition region_step (old_best new_frames : list (gmap string value))
    (assembled_best : list (gmap string value)) (b : float * float * value)
  : list (gmap string value) :=
  let '(start_pct, end_pct, _) := b in
  let new_region := _frames_in_region new_frames start_pct end_pct in
  let old_region := _frames_in_region old_best start_pct end_pct in
  let new_time := _split_timer new_region end_pct in
  let old_time := _split_timer old_region end_pct in
  match new_time with
  | None =>
      (* No new data for this region: keep old best *)
      assembled_best ++ _slim old_region 0
  | Some nt =>
      if match old_time with None => true | Some ot => nt <=? ot end
      then
        let offset_time := default 0 (_split_timer new_region start_pct) in
        assembled_best ++ _slim new_region (- offset_time)
      else assembled_best ++ _slim old_region 0
  end.

Definition _compute_best_splits (old_best new_frames splits : list (gmap string value))
  : list (gmap string value) :=
  fold_left (region_step old_best new_frames) (boundaries splits) [].


(** *** Exceptions and the disk *)

(** The exception classes the two modules raise or let through.
    [FileNotFoundError], [PermissionError] and [IsADirectoryError] are
    subclasses of [OSError]; [json.JSONDecodeError] and [UnicodeDecodeError]
    are subclasses of [ValueError]. *)
Inductive exn : Type :=
  | FileNotFoundError
  | PermissionError
  | IsADirectoryError
  | UnicodeDecodeError
  | JSONDecodeError
  | ValueError
  | MemoryError
  | StructError.

Definition is_OSError (e : exn) : bool :=
  match e with
  | FileNotFoundError | PermissionError | IsADirectoryError => true
  | _ => false
  end.

Definition is_ValueError (e : exn) : bool :=
  match e with
  | UnicodeDecodeError | JSONDecodeError | ValueError => true
  | _ => false
  end.

Inductive result (A : Type) : Type :=
  | Ok (a : A)
  | Raise (e : exn).
Arguments Ok {A} a.
Arguments Raise {A} e.

(** What [open(path, "r", encoding="utf-8")] and [json.load] make of a
    regular file: bytes that are not UTF-8, text that is not JSON, or a
    document.  A ghost document is an object whose sections are lists of
    objects. *)
Inductive content : Type :=
  | NotUtf8
  | NotJson
  | Json (doc : gmap string (list (gmap string value))).

(** A path holds a directory or a regular file; [readable = false] is a
    file that [open] for reading refuses (an [OSError]).  Writing is not
    restricted, and the directories above a path are not modelled. *)
Inductive node : Type :=
  | Dir
  | File (readable : bool) (c : content).

(** [os.path.isfile] *)
Definition isfile (fs : gmap string node) (filepath : string) : bool :=
  match fs !! filepath with
  | Some (File _ _) => true
  | _ => false
  end.

(** [with open(filepath, "r", encoding="utf-8") as fh: json.load(fh)] *)
Definition read_json (fs : gmap string node) (filepath : string)
  : result (gmap string (list (gmap string value))) :=
  match fs !! filepath with
  | None => Raise FileNotFoundError
  | Some Dir => Raise IsADirectoryError
  | Some (File false _) => Raise PermissionError
  | Some (File true NotUtf8) => Raise UnicodeDecodeError
  | Some (File true NotJson) => Raise JSONDecodeError
  | Some (File true (Json doc)) => Ok doc
  end.

(** [with open(filepath, "w", encoding="utf-8") as fh: json.dump(doc, fh)]

    The write fails here on a directory only.  A file that cannot be
    written, a full disk and the like are not modelled, and neither is the
    [os.makedirs] that precedes the write in [create_ghost] and
    [save_race_data], which creates the directories above the path and
    can raise as well. *)
Definition write_json (fs : gmap string node) (filepath : string)
    (doc : gmap string (list (gmap string value)))
  : result (gmap string node) :=
  match fs !! filepath with
  | Some Dir => Raise IsADirectoryError
  | Some (File r _) => Ok (<[filepath := File r (Json doc)]> fs)
  | None => Ok (<[filepath := File true (Json doc)]> fs)
  end.

(** *** GhostManager *)

Record GhostManager : Type := {
  _active_ghost : option (gmap string (list (gmap string value)));
  _active_path : option string;
}.

(** [__init__] *)
Definition GhostManager_init : GhostManager :=
  {| _active_ghost := None; _active_path := None |}.

Definition required_keys : list string := ["splits"; "best_splits"; "race_data"].

Definition load_ghost (self : GhostManager) (fs : gmap string node)
    (filepath : string)
  : result (gmap string (list (gmap string value))) * GhostManager :=
  if negb (isfile fs filepath) then (Raise FileNotFoundError, self)
  else
    match read_json fs filepath with
    | Raise e => (Raise e, self)
    | Ok data =>
        (* Basic schema validation *)
        match List.find (fun required_key => negb (bool_decide (is_Some (data !! required_key))))
                required_keys with
        | Some _ => (Raise ValueError, self)
        | None =>
            (Ok data, {| _active_ghost := Some data; _active_path := Some filepath |})
        end
    end.

Definition create_ghost (self : GhostManager) (fs : gmap string node)
    (filepath : string) (splits_config : option (list (gmap string value)))
  : result (gmap string (list (gmap string value))) * GhostManager * gmap string node :=
  let ghost := <["splits" := default [] splits_config]> EMPTY_GHOST in
  match write_json fs filepath ghost with
  | Raise e => (Raise e, self, fs)
  | Ok fs' =>
      (Ok ghost, {| _active_ghost := Some ghost; _active_path := Some filepath |}, fs')
  end.

(** The ghost [save_race_data] starts from: the file's document, or the
    empty ghost when there is no file or reading it raised
    [json.JSONDecodeError] or an [OSError]. *)
Definition load_or_initialise (fs : gmap string node) (filepath : string)
  : result (gmap string (list (gmap string value))) :=
  if isfile fs filepath then
    match read_json fs filepath with
    | Ok ghost => Ok ghost
    | Raise e =>
        if match e with JSONDecodeError => true | _ => is_OSError e end
        then Ok EMPTY_GHOST
        else Raise e
    end
  else Ok EMPTY_GHOST.

Definition save_race_data (self : GhostManager) (fs : gmap string node)
    (filepath : string) (race_frames : list (gmap string value))
  : result unit * GhostManager * gmap string node :=
  match load_or_initialise fs filepath with
  | Raise e => (Raise e, self, fs)
  | Ok ghost =>
      let splits := default [] (ghost !! "splits") in
      let old_best := default [] (ghost !! "best_splits") in
      (* Update race_data *)
      let ghost := <["race_data" := race_frames]> ghost in
      (* Update best_splits per split region *)
      let ghost :=
        <["best_splits" := _compute_best_splits old_best race_frames splits]> ghost in
      (* Write to disk *)
      match write_json fs filepath ghost with
      | Raise e => (Raise e, self, fs)
      | Ok fs' =>
          (Ok tt, {| _active_ghost := Some ghost; _active_path := Some filepath |}, fs')
      end
  end.

Definition get_splits (self : GhostManager) : list (gmap string value) :=
  match _active_ghost self with
  | None => []
  | Some g => default [] (g !! "splits")
  end.

Definition set_splits (self : GhostManager) (fs : gmap string node)
    (splits : list (gmap string value))
  : result unit * GhostManager * gmap string node :=
  match _active_ghost self, _active_path self with
  | Some g, Some path =>
      let g' := <["splits" := splits]> g in
      let self' := {| _active_ghost := Some g'; _active_path := Some path |} in
      match write_json fs path g' with
      | Raise e => (Raise e, self', fs)
      | Ok fs' => (Ok tt, self', fs')
      end
  | _, _ => (Ok tt, self, fs)
  end.

(** *** interpolate_ghost_timer *)

Definition is_valid (e : gmap string value) : bool :=
  match timer_value e, race_completion_pct e with
  | Some _, Some _ => true
  | _, _ => false
  end.

(** The loop over [range(len(valid) - 1)]: the first adjacent pair that
    brackets the progress decides. *)
Fixpoint bracket (current_race_pct : float) (valid : list (gmap string value))
  : option float :=
  match valid with
  | e0 :: ((e1 :: _) as rest) =>
      let p0 := rp e0 in
      let p1 := rp e1 in
      if PrimFloat.leb p0 current_race_pct && PrimFloat.leb current_race_pct p1
      then
        if PrimFloat.eqb p0 p1 then Some (float_of_int (tv e0))
        else Some (lerp (tv e0) p0 (tv e1) p1 current_race_pct)
      else bracket current_race_pct rest
  | _ => None
  end.

Definition interpolate_ghost_timer (self : GhostManager) (current_race_pct : float)
  : option float :=
  match _active_ghost self with
  | None => None
  | Some g =>
      let best := default [] (g !! "best_splits") in
      match best with
      | [] => None
      | _ =>
          (* Filter to entries that have both required fields *)
          let valid := List.filter is_valid best in
          (* Sort by completion *)
          let valid := sorted rp valid in
          match head valid, last valid with
          | Some first, Some lst =>
              (* Edge cases *)
              if PrimFloat.leb current_race_pct (rp first)
              then Some (float_of_int (tv first))
              else if PrimFloat.leb (rp lst) current_race_pct
              then Some (float_of_int (tv lst))
              else bracket current_race_pct valid
          | _, _ => None
          end
      end
  end.

(** ** data_extractor.py *)

(** *** The target process

    The foreign process as the module uses it: remote memory that
    [pymem] reads, and the three kernel32 operations of the injection,
    each answering with success or failure.  [allocs] lists the answers
    [VirtualAllocEx] is going to give (0 is NULL: the allocation is
    denied); [write_ok] and [protect_ok] say whether the process lets
    [WriteProcessMemory] and [VirtualProtectEx] through.  Page protection
    itself is not tracked. *)
Record process : Type := {
  mem : gmap Z byte;
  allocs : list Z;
  write_ok : bool;
  protect_ok : bool;
}.

Fixpoint write_bytes (m : gmap Z byte) (addr : Z) (bs : list byte) : gmap Z byte :=
  match bs with
  | [] => m
  | b :: bs' => write_bytes (<[addr := b]> m) (addr + 1) bs'
  end.


Definition WriteProcessMemory (proc : process) (addr : Z) (buf : list byte)
  : bool * process :=
  if write_ok proc
  then (true, {| mem := write_bytes (mem proc) addr buf; allocs := allocs proc;
                 write_ok := write_ok proc; protect_ok := protect_ok proc |})
  else (false, proc).


(** [pymem]'s readers; [None] stands for the exception they raise. *)
Fixpoint read_bytes (proc : process) (addr : Z) (n : nat) : option (list byte) :=
  match n with
  | O => Some []
  | S n' =>
      match mem proc !! addr, read_bytes proc (addr + 1) n' with
      | Some b, Some bs => Some (b :: bs)
      | _, _ => None
      end
  end.

Definition byte_to_Z (b : byte) : Z := Z.of_N (Byte.to_N b).

Definition byte_of_Z (z : Z) : byte :=
  default x00 (Byte.of_N (Z.to_N (z mod 256))).

Fixpoint le_to_Z (bs : list byte) : Z :=
  match bs with
  | [] => 0
  | b :: bs' => byte_to_Z b + 256 * le_to_Z bs'
  end.

Fixpoint Z_to_le (n : nat) (z : Z) : list byte :=
  match n with
  | O => []
  | S n' => byte_of_Z z :: Z_to_le n' (z / 256)
  end.

Definition to_signed (w : Z) (z : Z) : Z :=
  if z <? 2 ^ (w - 1) then z else z - 2 ^ w.

Definition read_int (proc : process) (addr : Z) : option Z :=
  to_signed 32 <$> (le_to_Z <$> read_bytes proc addr 4).

Definition read_longlong (proc : process) (addr : Z) : option Z :=
  to_signed 64 <$> (le_to_Z <$> read_bytes proc addr 8).


Definition pack_i (v : Z) : option (list byte) :=
  if (- 2 ^ 31 <=? v) && (v <? 2 ^ 31) then Some (Z_to_le 4 (v mod 2 ^ 32)) else None.

(** [struct.unpack("<f", raw)[0]]: the binary32 value as a Python float. *)
Definition float_of_bits32 (b : Z) : float :=
  let sign := Z.testbit b 31 in
  let e := Z.land (Z.shiftr b 23) 255 in
  let frac := Z.land b (2 ^ 23 - 1) in
  let sgn (m : Z) := if sign then - m else m in
  if e =? 255 then
    if frac =? 0 then (if sign then neg_infinity else infinity) else nan
  else if e =? 0 then SF2Prim (binary_normalize prec emax (sgn frac) (-149) sign)
  else SF2Prim (binary_normalize prec emax (sgn (2 ^ 23 + frac)) (e - 150) sign).

Definition unpack_f (raw : list byte) : option float :=
  if (length raw =? 4)%nat then Some (float_of_bits32 (le_to_Z raw)) else None.

(** *** Constants *)


Definition OFFSET_RACE_TIMER : Z := 0xA0.
Definition OFFSET_RACE_PROGRESS : Z := 0x1D8.
Definition OFFSET_RPM : Z := 0x1B8.
Definition OFFSET_GEAR : Z := 0xA0.

(** *** _inject_pointer_capture *)


(** *** DataExtractor *)

Record DataExtractor : Type := {
  _pm : option Z;                  (* the pymem handle (its process id) *)
  _module_base : Z;
  _p_race_data_slot : option Z;
  _p_checkpoint_slot : option Z;
  _race_data_ptr : Z;
  _checkpoint_ptr : Z;
  _last_timer_value : Z;
}.

(** [__init__] *)
Definition DataExtractor_init : DataExtractor :=
  {| _pm := None; _module_base := 0;
     _p_race_data_slot := None; _p_checkpoint_slot := None;
     _race_data_ptr := 0; _checkpoint_ptr := 0;
     _last_timer_value := -1 |}.

(** A call on [self._pm] inside [try ... except Exception]: [None] when
    there is no handle or the read raises. *)
Definition with_pm {A : Type} (self : DataExtractor) (read : option A) : option A :=
  match _pm self with
  | None => None
  | Some _ => read
  end.

Definition _read_race_data_ptr (self : DataExtractor) (proc : process) : Z :=
  match _p_race_data_slot self, _pm self with
  | Some slot, Some _ => default 0 (read_longlong proc slot)
  | _, _ => 0
  end.

Definition _read_checkpoint_ptr (self : DataExtractor) (proc : process) : Z :=
  match _p_checkpoint_slot self, _pm self with
  | Some slot, Some _ => default 0 (read_longlong proc slot)
  | _, _ => 0
  end.

Definition opt_int (o : option Z) : value :=
  match o with Some n => VInt n | None => VNone end.

Definition opt_float (o : option float) : value :=
  match o with Some x => VFloat x | None => VNone end.

Definition _read_timer (self : DataExtractor) (proc : process) (base : Z) : value :=
  opt_int (with_pm self (read_int proc (base + OFFSET_RACE_TIMER))).

Definition _read_race_progress (self : DataExtractor) (proc : process) (base : Z)
  : value :=
  opt_float (with_pm self (read_bytes proc (base + OFFSET_RACE_PROGRESS) 4 ≫= unpack_f)).

Definition _read_rpm (self : DataExtractor) (proc : process) (base : Z) : value :=
  opt_float (with_pm self (read_bytes proc (base + OFFSET_RPM) 4 ≫= unpack_f)).

Definition _read_gear (self : DataExtractor) (proc : process) (base : Z) : value :=
  opt_int (with_pm self (read_int proc (base + OFFSET_GEAR))).

Definition _read_checkpoint (self : DataExtractor) (proc : process) : value :=
  let cp_base := _read_checkpoint_ptr self proc in
  if cp_base =? 0 then VNone
  else opt_int (with_pm self (read_int proc cp_base)).

(** The readers whose offsets are not known yet. *)
Definition _read_velocity (self : DataExtractor) (base : Z) : value := VNone.
Definition _read_car_angle (self : DataExtractor) (base : Z) : value := VNone.
Definition _read_car_position (self : DataExtractor) (base : Z) : value := VNone.
Definition _read_camera_angle (self : DataExtractor) (base : Z) : value := VNone.
Definition _read_camera_position (self : DataExtractor) (base : Z) : value := VNone.
Definition _read_nitro_bar (self : DataExtractor) (base : Z) : value := VNone.
Definition _read_nitro_state (self : DataExtractor) (base : Z) : value := VNone.
Definition _read_drift_state (self : DataExtractor) (base : Z) : value := VNone.
Definition _read_360_state (self : DataExtractor) (base : Z) : value := VNone.
Definition _read_acceleration (self : DataExtractor) (base : Z) : value := VNone.

Definition set_last_timer_value (self : DataExtractor) (t : Z) : DataExtractor :=
  {| _pm := _pm self; _module_base := _module_base self;
     _p_race_data_slot := _p_race_data_slot self;
     _p_checkpoint_slot := _p_checkpoint_slot self;
     _race_data_ptr := _race_data_ptr self;
     _checkpoint_ptr := _checkpoint_ptr self;
     _last_timer_value := t |}.

Definition set_race_data_ptr (self : DataExtractor) (base : Z) : DataExtractor :=
  {| _pm := _pm self; _module_base := _module_base self;
     _p_race_data_slot := _p_race_data_slot self;
     _p_checkpoint_slot := _p_checkpoint_slot self;
     _race_data_ptr := base;
     _checkpoint_ptr := _checkpoint_ptr self;
     _last_timer_value := _last_timer_value self |}.

Definition _has_physics_update (self : DataExtractor) (current_timer : value)
  : bool * DataExtractor :=
  match current_timer with
  | VInt t =>
      let changed := negb (t =? _last_timer_value self) in
      (changed, set_last_timer_value self t)
  | _ => (false, self)
  end.

Definition get_snapshot (self : DataExtractor) (proc : process)
  : gmap string value * DataExtractor :=
  let base := _read_race_data_ptr self proc in
  let self := set_race_data_ptr self base in
  (* Always-captured fields *)
  let timer_value := if base =? 0 then VNone else _read_timer self proc base in
  let race_completion := if base =? 0 then VNone else _read_race_progress self proc base in
  let snapshot : gmap string value :=
    <["acceleration" := VNone]> (<["engine_rpm" := VNone]> (<["gear" := VNone]>
    (<["360_state" := VNone]> (<["drift_state" := VNone]> (<["nitro_state" := VNone]>
    (<["nitro_bar_pct" := VNone]> (<["checkpoint" := VNone]>
    (<["camera_position" := VNone]> (<["camera_angle" := VNone]>
    (<["car_position" := VNone]> (<["car_angle" := VNone]> (<["velocity" := VNone]>
    (<["race_completion_pct" := race_completion]>
    (<["timer_value" := timer_value]> ∅)))))))))))))) in
  (* Only populate the full set when a physics frame has ticked *)
  let '(tick, self) := _has_physics_update self timer_value in
  if tick then
    let snapshot := <["velocity" := _read_velocity self base]> snapshot in
    let snapshot := <["car_angle" := _read_car_angle self base]> snapshot in
    let snapshot := <["car_position" := _read_car_position self base]> snapshot in
    let snapshot := <["camera_angle" := _read_camera_angle self base]> snapshot in
    let snapshot := <["camera_position" := _read_camera_position self base]> snapshot in
    let snapshot := <["checkpoint" := _read_checkpoint self proc]> snapshot in
    let snapshot := <["nitro_bar_pct" := _read_nitro_bar self base]> snapshot in
    let snapshot := <["nitro_state" := _read_nitro_state self base]> snapshot in
    let snapshot := <["drift_state" := _read_drift_state self base]> snapshot in
    let snapshot := <["360_state" := _read_360_state self base]> snapshot in
    let snapshot := <["gear" := _read_gear self proc base]> snapshot in
    let snapshot := <["engine_rpm" := _read_rpm self proc base]> snapshot in
    let snapshot := <["acceleration" := _read_acceleration self base]> snapshot in
    (snapshot, self)
  else (snapshot, self).

(** ** Accessors, the hook set-up and the race loop *)

(** [get_active_ghost] and [get_active_path] *)
Definition get_active_ghost (self : GhostManager)
  : option (gmap string (list (gmap string value))) := _active_ghost self.

Definition get_active_path (self : GhostManager) : option string := _active_path self.

(** *** find_offsets *)




Section FindOffsets.
(** [_aob_scan]: the pattern scan of [pymem] over the game module, every
    exception caught; the address of a match, or [None]. *)
Variable _aob_scan : process -> list byte -> option Z.

End FindOffsets.

(** *** wait_for_race_start

    The loop polls the target until the condition holds; it is run here on
    the states the target has at the successive polls, and [None] says that
    it is still waiting after the last of them. *)
Fixpoint wait_for_race_start (self : DataExtractor) (targets : list process)
  : option bool :=
  match targets with
  | [] => None
  | proc :: targets' =>
      let base := _read_race_data_ptr self proc in
      if negb (base =? 0) then
        match _read_race_progress self proc base with
        | VFloat progress =>
            if PrimFloat.leb 0 progress then
              (* Race start detected. *)
              Some true
            else wait_for_race_start self targets'
        | _ => wait_for_race_start self targets'
        end
      else wait_for_race_start self targets'
  end.

(** *** detect_race_end *)

Definition detect_race_end (self : DataExtractor) (proc : process)
    (ghost_manager : GhostManager) (fs : gmap string node)
    (ghost_filepath : string) (race_frames : list (gmap string value))
  : result bool * GhostManager * gmap string node :=
  let base := _read_race_data_ptr self proc in
  if base =? 0 then (Ok false, ghost_manager, fs)
  else
    let race_ended := false in
    if race_ended then
      (* Race end detected - saving ghost data *)
      match save_race_data ghost_manager fs ghost_filepath race_frames with
      | (Raise e, ghost_manager, fs) => (Raise e, ghost_manager, fs)
      | (Ok _, ghost_manager, fs) => (Ok true, ghost_manager, fs)
      end
    else (Ok false, ghost_manager, fs).

(** ** main.py *)

(** The state of the recording loop of [race_loop]: the extractor, the
    ghost manager, the disk and the frames of the race so far. *)
Record recording : Type := {
  extractor : DataExtractor;
  ghost_manager : GhostManager;
  disk : gmap string node;
  race_frames : list (gmap string value);
}.

(** One turn of the loop, with the target as it is when the snapshot is
    taken and when the end of the race is checked: [None] when the loop
    goes on, [Some (Ok tt)] at [break], [Some (Raise e)] when the check
    raised. *)
Definition record_step (active_ghost_path : option string) (st : recording)
    (target : process * process) : option (result unit) * recording :=
  let '(snapshot, self) := get_snapshot (extractor st) target.1 in
  let frames := race_frames st ++ [snapshot] in
  let go_on gm fs :=
    {| extractor := self; ghost_manager := gm; disk := fs; race_frames := frames |} in
  match active_ghost_path with
  | Some path =>
      if bool_decide (path = "") then (None, go_on (ghost_manager st) (disk st))
      else
        (* Check for race end *)
        match detect_race_end self target.2 (ghost_manager st) (disk st) path frames with
        | (Ok true, gm, fs) => (Some (Ok tt), go_on gm fs)
        | (Ok false, gm, fs) => (None, go_on gm fs)
        | (Raise e, gm, fs) => (Some (Raise e), go_on gm fs)
        end
  | None => (None, go_on (ghost_manager st) (disk st))
  end.

(** The loop [while True], run for as many turns as there are targets. *)
Fixpoint record_loop (active_ghost_path : option string) (st : recording)
    (targets : list (process * process)) : option (result unit) * recording :=
  match targets with
  | [] => (None, st)
  | target :: targets' =>
      match record_step active_ghost_path st target with
      | (None, st') => record_loop active_ghost_path st' targets'
      | (Some r, st') => (Some r, st')
      end
  end.

(** * Auxiliary definitions

    Notions the statements below are worded with, and the concrete
    inputs they are evaluated on. *)

(** ** The order of binary64 *)

(** A rank whose lexicographic order is the one [SFcompare] computes. *)
Definition rank (x : spec_float) : Z * Z * Z :=
  match x with
  | S754_zero _ => (0, 0, 0)
  | S754_infinity s => (if s then -2 else 2, 0, 0)
  | S754_nan => (0, 0, 0)
  | S754_finite s m e => if s then (-1, - e, - Z.pos m) else (1, e, Z.pos m)
  end.

Definition lex_lt (a b : Z * Z * Z) : Prop :=
  let '(a1, a2, a3) := a in
  let '(b1, b2, b3) := b in
  a1 < b1 \/ (a1 = b1 /\ (a2 < b2 \/ (a2 = b2 /\ a3 < b3))).

Definition is_nan_sf (x : spec_float) : bool :=
  match x with S754_nan => true | _ => false end.

(** [x] is not a NaN.  ([x == x] in Python.) *)
Definition not_nan (x : float) : Prop := PrimFloat.eqb x x = true.

(** The three ways two floats that are not NaN compare, with what each
    comparison operator answers. *)
Inductive float_cmp (x y : float) : Prop :=
  | cmp_lt : PrimFloat.ltb x y = true -> PrimFloat.leb x y = true ->
             PrimFloat.eqb x y = false -> PrimFloat.leb y x = false ->
             PrimFloat.ltb y x = false ->
             lex_lt (rank (Prim2SF x)) (rank (Prim2SF y)) -> float_cmp x y
  | cmp_eq : PrimFloat.ltb x y = false -> PrimFloat.leb x y = true ->
             PrimFloat.eqb x y = true -> PrimFloat.leb y x = true ->
             PrimFloat.ltb y x = false ->
             rank (Prim2SF x) = rank (Prim2SF y) -> float_cmp x y
  | cmp_gt : PrimFloat.ltb x y = false -> PrimFloat.leb x y = false ->
             PrimFloat.eqb x y = false -> PrimFloat.leb y x = true ->
             PrimFloat.ltb y x = true ->
             lex_lt (rank (Prim2SF y)) (rank (Prim2SF x)) -> float_cmp x y.

Definition float_le (x y : float) : Prop := PrimFloat.leb x y = true.

(** [a] comes no later than [b] in the order of their keys. *)
Definition key_le {A : Type} (key : A -> float) (a b : A) : Prop :=
  PrimFloat.leb (key a) (key b) = true.

(** ** Snapshots *)

(** The keys of a snapshot that are read only on a physics tick, all the
    keys, and the keys the design document lists. *)
Definition full_tier_keys : list string :=
  ["velocity"; "car_angle"; "car_position"; "camera_angle"; "camera_position";
   "checkpoint"; "nitro_bar_pct"; "nitro_state"; "drift_state"; "360_state";
   "gear"; "engine_rpm"; "acceleration"].

Definition snapshot_keys : list string :=
  "timer_value" :: "race_completion_pct" :: full_tier_keys.

Definition documented_keys : list string :=
  ["timer_value"; "race_completion_pct"; "velocity"; "car_angle"; "car_position";
   "camera_angle"; "camera_position"; "checkpoint"; "nitro_bar_pct";
   "nitro_state"; "drift_state"; "rollover_state"; "gear"; "engine_rpm";
   "acceleration"].

(** A snapshot value is null or a number. *)
Definition is_None_or_number (v : value) : Prop :=
  match v with VStr _ => False | _ => True end.

(** A process in which nothing is mapped. *)
Definition empty_process : process :=
  {| mem := ∅; allocs := []; write_ok := true; protect_ok := true |}.

(** ** The injection *)




(** ** Regions and best splits *)

Definition region_start (b : float * float * value) : float := b.1.1.
Definition region_end (b : float * float * value) : float := b.1.2.

(** Regions that follow one another from [s] to [e]: each starts where the
    one before ends. *)
Inductive contiguous : float -> list (float * float * value) -> float -> Prop :=
  | contiguous_one (s e : float) (n : value) : contiguous s [(s, e, n)] e
  | contiguous_cons (s m e : float) (n : value) (bs : list (float * float * value)) :
      contiguous m bs e -> contiguous s ((s, m, n) :: bs) e.

(** An entry as [_slim] writes it for a frame of a region. *)
Definition is_slim (e : gmap string value) : Prop :=
  exists t p, e = slim_entry t (VFloat p).

(** A frame of a run: a snapshot with the timer and the progress read. *)
Definition frame (t : Z) (p : float) : gmap string value :=
  <["timer_value" := VInt t]> (<["race_completion_pct" := VFloat p]> EMPTY_FRAME).

(** A [best_splits] entry, and a configured split. *)
Definition entry (t : Z) (p : float) : gmap string value :=
  slim_entry t (VFloat p).

Definition split (name : string) (p : float) : gmap string value :=
  <["name" := VStr name]> (<["race_completion" := VFloat p]> ∅).

(** The scenario of the design document: one split at 50 %, a stored best
    of 1000 for the first region and 1200 for the second (each region's
    timers start at 0, as [save_race_data] stores them), and a new run
    that takes 900 and then 1300. *)
Definition scenario_splits : list (gmap string value) := [split "Split 1" 50%float].

Definition scenario_best : list (gmap string value) :=
  [entry 0 0; entry 1000 50; entry 0 50; entry 1200 100]%float.

(** The new run as the game's timer reports it: 900 at the split, 2200 at
    the finish. *)
Definition scenario_run : list (gmap string value) :=
  [frame 0 0; frame 900 50; frame 2200 100]%float.

(** The new run with its timer restarted at the split, as the scenario
    writes the timers down. *)
Definition scenario_run_restarted : list (gmap string value) :=
  [frame 0 0; frame 900 50; frame 0 50; frame 1300 100]%float.

(** A run faster than the stored best in both regions (900 and 1100), and
    one slower in both (1100 and 1400). *)
Definition faster_run : list (gmap string value) :=
  [frame 0 0; frame 900 50; frame 2000 100]%float.

Definition slower_run : list (gmap string value) :=
  [frame 0 0; frame 1100 50; frame 2500 100]%float.

(** A run whose first two frames are both at 0 %: the timer runs while the
    car has not moved yet. *)
Definition standing_start_run : list (gmap string value) :=
  [frame 5 0; frame 7 0; frame 9 10]%float.

(** "The region's own timeline starts at 0": the first entry stored for
    the region has timer 0. *)
Definition starts_at_zero (part : list (gmap string value)) : Prop :=
  forall e, head part = Some e -> timer_value e = Some 0.

(** ** The ghost store *)

(** The file at [filepath] parses: [json.load] returns a document. *)
Definition parses (fs : gmap string node) (filepath : string) : Prop :=
  exists doc, read_json fs filepath = Ok doc.

(** The file parses and one of the three required keys is absent. *)
Definition missing_key (fs : gmap string node) (filepath : string) : Prop :=
  exists doc k, read_json fs filepath = Ok doc /\ k ∈ required_keys /\ doc !! k = None.

(** The splits configured in the ghost file at [filepath], as
    [save_race_data] reads them. *)
Definition configured_splits (fs : gmap string node) (filepath : string)
  : list (gmap string value) :=
  match load_or_initialise fs filepath with
  | Ok ghost => default [] (ghost !! "splits")
  | Raise _ => []
  end.

(** The ghost [save_race_data] writes when it starts from [ghost], and
    when it starts from the empty ghost. *)
Definition updated_ghost (ghost : gmap string (list (gmap string value)))
    (race_frames : list (gmap string value))
  : gmap string (list (gmap string value)) :=
  <["best_splits" :=
      _compute_best_splits (default [] (ghost !! "best_splits")) race_frames
        (default [] (ghost !! "splits"))]>
    (<["race_data" := race_frames]> ghost).

Definition fresh_ghost (race_frames : list (gmap string value))
  : gmap string (list (gmap string value)) :=
  <["best_splits" := _compute_best_splits [] race_frames []]>
    (<["race_data" := race_frames]> EMPTY_GHOST).


(** ** Interpolation *)

(** A manager whose active ghost is [g], and one whose active ghost has
    the given [best_splits]. *)
Definition manager_of (g : gmap string (list (gmap string value)))
    (path : option string) : GhostManager :=
  {| _active_ghost := Some g; _active_path := path |}.

Definition ghost_with (best : list (gmap string value)) : GhostManager :=
  {| _active_ghost := Some (<["best_splits" := best]> EMPTY_GHOST);
     _active_path := None |}.

(** The entries [interpolate_ghost_timer] works on: those of [best_splits]
    with both fields, in ascending order of progress. *)
Definition valid_entries (g : gmap string (list (gmap string value)))
  : list (gmap string value) :=
  sorted rp (List.filter is_valid (default [] (g !! "best_splits"))).

(** ** Calls, regions and polls *)

(** A call of one of the four methods of [GhostManager] that read or
    write the disk, and its effect on the manager and the disk whatever it
    returns or raises. *)
Inductive call : Type :=
  | call_load_ghost (filepath : string)
  | call_create_ghost (filepath : string) (splits_config : option (list (gmap string value)))
  | call_save_race_data (filepath : string) (race_frames : list (gmap string value))
  | call_set_splits (splits : list (gmap string value)).

Definition run_call (st : GhostManager * gmap string node) (c : call)
  : GhostManager * gmap string node :=
  match c with
  | call_load_ghost filepath => ((load_ghost st.1 st.2 filepath).2, st.2)
  | call_create_ghost filepath splits_config =>
      ((create_ghost st.1 st.2 filepath splits_config).1.2,
       (create_ghost st.1 st.2 filepath splits_config).2)
  | call_save_race_data filepath race_frames =>
      ((save_race_data st.1 st.2 filepath race_frames).1.2,
       (save_race_data st.1 st.2 filepath race_frames).2)
  | call_set_splits splits =>
      ((set_splits st.1 st.2 splits).1.2, (set_splits st.1 st.2 splits).2)
  end.

Definition raised {A : Type} (r : result A) : bool :=
  match r with
  | Raise _ => true
  | Ok _ => false
  end.

(** The call is one of the three that write, and it raised. *)
Definition write_raised (st : GhostManager * gmap string node) (c : call) : bool :=
  match c with
  | call_load_ghost _ => false
  | call_create_ghost filepath splits_config =>
      raised (create_ghost st.1 st.2 filepath splits_config).1.1
  | call_save_race_data filepath race_frames =>
      raised (save_race_data st.1 st.2 filepath race_frames).1.1
  | call_set_splits splits => raised (set_splits st.1 st.2 splits).1.1
  end.

(** No writing call of the sequence raised. *)
Fixpoint no_write_raised (st : GhostManager * gmap string node) (calls : list call)
  : bool :=
  match calls with
  | [] => true
  | c :: calls' => negb (write_raised st c) && no_write_raised (run_call st c) calls'
  end.

(** The active ghost is what the file at the active path holds. *)
Definition on_disk (self : GhostManager) (fs : gmap string node) : Prop :=
  match get_active_ghost self, get_active_path self with
  | Some g, Some p => exists r, fs !! p = Some (File r (Json g))
  | None, None => True
  | _, _ => False
  end.

(** A session: a ghost is created, its splits are set, a run is saved,
    and a file that does not exist is asked for. *)
Definition session : list call :=
  [call_create_ghost "ghost.json" None; call_set_splits scenario_splits;
   call_save_race_data "ghost.json" scenario_run; call_load_ghost "other.json"].

(** The progress [p] lies in the region [b]. *)
Definition covers (b : float * float * value) (p : float) : Prop :=
  PrimFloat.leb (region_start b) p = true /\ PrimFloat.leb p (region_end b) = true.





(** A snapshot of the target would carry a progress of at least 0. *)
Definition shows_progress (self : DataExtractor) (proc : process) : Prop :=
  exists progress,
    (get_snapshot self proc).1 !! "race_completion_pct" = Some (VFloat progress) /\
    PrimFloat.leb 0 progress = true.

(** * Facts about the order of binary64 *)

Lemma SFcompare_rank (x y : spec_float) :
  is_nan_sf x = false -> is_nan_sf y = false ->
  exists c, SFcompare x y = Some c /\
    match c with
    | Lt => lex_lt (rank x) (rank y)
    | Eq => rank x = rank y
    | Gt => lex_lt (rank y) (rank x)
    end.
Proof.
  intros Hx Hy.
  destruct x as [s1 | s1 | | s1 m1 e1], y as [s2 | s2 | | s2 m2 e2];
    try discriminate; cbn [SFcompare rank].
  - eexists; split; [reflexivity | reflexivity].
  - destruct s2; eexists; (split; [reflexivity | cbn; lia]).
  - destruct s2; eexists; (split; [reflexivity | cbn; lia]).
  - destruct s1; eexists; (split; [reflexivity | cbn; lia]).
  - destruct s1, s2; eexists; (split; [reflexivity | ]); cbn; try reflexivity; lia.
  - destruct s1, s2; eexists; (split; [reflexivity | cbn; lia]).
  - destruct s1; eexists; (split; [reflexivity | cbn; lia]).
  - destruct s1, s2; eexists; (split; [reflexivity | cbn; lia]).
  - destruct s1, s2.
    + destruct (Z.compare_spec e1 e2) as [He | He | He].
      * rewrite Pos.compare_cont_spec. cbn [Pos.switch_Eq].
        destruct (Pos.compare_spec m1 m2) as [Hm | Hm | Hm];
          eexists; (split; [reflexivity | ]); cbn; subst; try reflexivity; lia.
      * eexists; split; [reflexivity | cbn; lia].
      * eexists; split; [reflexivity | cbn; lia].
    + eexists; split; [reflexivity | cbn; lia].
    + eexists; split; [reflexivity | cbn; lia].
    + destruct (Z.compare_spec e1 e2) as [He | He | He].
      * rewrite Pos.compare_cont_spec. cbn [Pos.switch_Eq].
        destruct (Pos.compare_spec m1 m2) as [Hm | Hm | Hm];
          eexists; (split; [reflexivity | ]); cbn; subst; try reflexivity; lia.
      * eexists; split; [reflexivity | cbn; lia].
      * eexists; split; [reflexivity | cbn; lia].
Qed.


Lemma not_nan_sf (x : float) : not_nan x <-> is_nan_sf (Prim2SF x) = false.
Proof.
  unfold not_nan. rewrite FloatAxioms.eqb_spec. unfold SFeqb.
  destruct (Prim2SF x) as [s | s | | s m e] eqn:E; cbn [is_nan_sf].
  - cbn. tauto.
  - destruct s; cbn; tauto.
  - cbn. split; discriminate.
  - destruct (SFcompare_rank (S754_finite s m e) (S754_finite s m e)) as (c & Hc & Hr);
      try reflexivity.
    rewrite Hc. destruct c; try tauto; exfalso; revert Hr; destruct s; cbn; lia.
Qed.


Lemma lex_lt_irrefl a : ~ lex_lt a a.
Proof. destruct a as [[a1 a2] a3]. cbn. lia. Qed.

Lemma lex_lt_asym a b : lex_lt a b -> ~ lex_lt b a.
Proof. destruct a as [[a1 a2] a3], b as [[b1 b2] b3]. cbn. lia. Qed.

Lemma lex_lt_trans a b c : lex_lt a b -> lex_lt b c -> lex_lt a c.
Proof.
  destruct a as [[a1 a2] a3], b as [[b1 b2] b3], c as [[c1 c2] c3]. cbn. lia.
Qed.

Lemma float_cmp_cases (x y : float) : not_nan x -> not_nan y -> float_cmp x y.
Proof.
  intros Hx Hy. apply not_nan_sf in Hx, Hy.
  destruct (SFcompare_rank _ _ Hx Hy) as (c & Hc & Hr).
  destruct (SFcompare_rank _ _ Hy Hx) as (c' & Hc' & Hr').
  assert (Hop : c' = CompOpp c).
  { destruct c, c'; cbn; try reflexivity; exfalso;
      try (rewrite Hr in Hr'; exact (lex_lt_irrefl _ Hr'));
      try (rewrite Hr' in Hr; exact (lex_lt_irrefl _ Hr));
      try (rewrite <- Hr in Hr'; exact (lex_lt_irrefl _ Hr'));
      try (rewrite <- Hr' in Hr; exact (lex_lt_irrefl _ Hr));
      exact (lex_lt_asym _ _ Hr Hr'). }
  subst c'.
  destruct c; [apply cmp_eq | apply cmp_lt | apply cmp_gt];
    rewrite ?ltb_spec, ?leb_spec, ?FloatAxioms.eqb_spec;
    unfold SFltb, SFleb, SFeqb; rewrite ?Hc, ?Hc'; try reflexivity; exact Hr.
Qed.

Lemma leb_not_nan (x y : float) :
  PrimFloat.leb x y = true -> not_nan x /\ not_nan y.
Proof.
  rewrite leb_spec. unfold SFleb. rewrite !not_nan_sf.
  destruct (Prim2SF x), (Prim2SF y); cbn; try discriminate; auto.
Qed.

Lemma ltb_not_nan (x y : float) :
  PrimFloat.ltb x y = true -> not_nan x /\ not_nan y.
Proof.
  rewrite ltb_spec. unfold SFltb. rewrite !not_nan_sf.
  destruct (Prim2SF x), (Prim2SF y); cbn; try discriminate; auto.
Qed.

Lemma eqb_not_nan (x y : float) :
  PrimFloat.eqb x y = true -> not_nan x /\ not_nan y.
Proof.
  rewrite FloatAxioms.eqb_spec. unfold SFeqb. rewrite !not_nan_sf.
  destruct (Prim2SF x), (Prim2SF y); cbn; try discriminate; auto.
Qed.

Lemma ltb_leb (x y : float) : PrimFloat.ltb x y = true -> PrimFloat.leb x y = true.
Proof.
  intros H. destruct (ltb_not_nan _ _ H) as [Hx Hy].
  destruct (float_cmp_cases x y Hx Hy); congruence.
Qed.

Lemma leb_total (x y : float) :
  not_nan x -> not_nan y -> PrimFloat.leb x y = false -> PrimFloat.ltb y x = true.
Proof. intros Hx Hy H. destruct (float_cmp_cases x y Hx Hy); congruence. Qed.

Lemma ltb_total (x y : float) :
  not_nan x -> not_nan y -> PrimFloat.ltb x y = false -> PrimFloat.leb y x = true.
Proof. intros Hx Hy H. destruct (float_cmp_cases x y Hx Hy); congruence. Qed.

Lemma leb_trans (x y z : float) :
  PrimFloat.leb x y = true -> PrimFloat.leb y z = true -> PrimFloat.leb x z = true.
Proof.
  intros H1 H2.
  destruct (leb_not_nan _ _ H1) as [Hx Hy]. destruct (leb_not_nan _ _ H2) as [_ Hz].
  destruct (float_cmp_cases x y Hx Hy) as [? ? ? ? ? R1 | ? ? ? ? ? R1 | ? ? ? ? ? R1];
    try congruence;
    destruct (float_cmp_cases y z Hy Hz) as [? ? ? ? ? R2 | ? ? ? ? ? R2 | ? ? ? ? ? R2];
    try congruence;
    destruct (float_cmp_cases x z Hx Hz) as [? ? ? ? ? R3 | ? ? ? ? ? R3 | ? ? ? ? ? R3];
    try congruence; exfalso.
  - exact (lex_lt_asym _ _ (lex_lt_trans _ _ _ R1 R2) R3).
  - rewrite <- R2 in R3. exact (lex_lt_asym _ _ R1 R3).
  - rewrite R1 in R3. exact (lex_lt_asym _ _ R2 R3).
  - rewrite R1, R2 in R3. exact (lex_lt_irrefl _ R3).
Qed.

Lemma ltb_leb_trans (x y z : float) :
  PrimFloat.ltb x y = true -> PrimFloat.leb y z = true -> PrimFloat.ltb x z = true.
Proof.
  intros H1 H2.
  destruct (ltb_not_nan _ _ H1) as [Hx Hy]. destruct (leb_not_nan _ _ H2) as [_ Hz].
  destruct (float_cmp_cases x z Hx Hz) as [ | ? ? ? Hzx | ? ? ? Hzx]; try assumption; exfalso.
  - pose proof (leb_trans _ _ _ H2 Hzx) as Hyx.
    destruct (float_cmp_cases x y Hx Hy); congruence.
  - pose proof (leb_trans _ _ _ H2 Hzx) as Hyx.
    destruct (float_cmp_cases x y Hx Hy); congruence.
Qed.

Lemma leb_antisym_eqb (x y : float) :
  PrimFloat.leb x y = true -> PrimFloat.leb y x = true -> PrimFloat.eqb x y = true.
Proof.
  intros H1 H2. destruct (leb_not_nan _ _ H1) as [Hx Hy].
  destruct (float_cmp_cases x y Hx Hy); congruence.
Qed.

Lemma eqb_leb (x y : float) :
  PrimFloat.eqb x y = true -> PrimFloat.leb x y = true /\ PrimFloat.leb y x = true.
Proof.
  intros H. destruct (eqb_not_nan _ _ H) as [Hx Hy].
  destruct (float_cmp_cases x y Hx Hy); split; congruence.
Qed.

(** * The stable sort *)

Section SortingFacts.
Context {A : Type} (key : A -> float).

Lemma insert_by_Permutation (x : A) (l : list A) :
  Permutation (insert_by key x l) (x :: l).
Proof.
  induction l as [ | y l IH]; cbn [insert_by]; [reflexivity | ].
  destruct (PrimFloat.ltb (key y) (key x)); [ | reflexivity].
  rewrite IH. apply perm_swap.
Qed.

Lemma sorted_Permutation (l : list A) : Permutation (sorted key l) l.
Proof.
  induction l as [ | x l IH]; cbn [sorted]; [reflexivity | ].
  rewrite insert_by_Permutation, IH. reflexivity.
Qed.


Lemma insert_by_HdRel (a x : A) (l : list A) :
  key_le key a x -> HdRel (key_le key) a l -> HdRel (key_le key) a (insert_by key x l).
Proof.
  intros Hax Hl. destruct l as [ | y l]; cbn [insert_by].
  - constructor. exact Hax.
  - destruct (PrimFloat.ltb (key y) (key x)).
    + inversion Hl; subst. constructor. assumption.
    + constructor. exact Hax.
Qed.

Lemma insert_by_Sorted (x : A) (l : list A) :
  not_nan (key x) -> Forall (fun y => not_nan (key y)) l ->
  Sorted (key_le key) l -> Sorted (key_le key) (insert_by key x l).
Proof.
  intros Hx Hnan Hs. induction Hs as [ | y l Hs IH Hhd]; cbn [insert_by].
  - repeat constructor.
  - inversion Hnan as [ | ? ? Hy Hnan']; subst.
    destruct (PrimFloat.ltb (key y) (key x)) eqn:Hlt.
    + constructor; [exact (IH Hnan') | ].
      apply insert_by_HdRel; [ | exact Hhd]. apply ltb_leb. exact Hlt.
    + constructor; [constructor; assumption | ].
      constructor. apply ltb_total; assumption.
Qed.

Lemma sorted_Sorted (l : list A) :
  Forall (fun y => not_nan (key y)) l -> Sorted (key_le key) (sorted key l).
Proof.
  induction 1 as [ | x l Hx Hl IH]; cbn [sorted]; [constructor | ].
  apply insert_by_Sorted; [exact Hx | | exact IH].
  eapply Permutation_Forall; [ | exact Hl].
  symmetry. apply sorted_Permutation.
Qed.

(** A list already in ascending order is left as it is. *)
Lemma sorted_id (l : list A) : Sorted (key_le key) l -> sorted key l = l.
Proof.
  induction 1 as [ | x l Hs IH Hhd]; cbn [sorted]; [reflexivity | ].
  rewrite IH. destruct Hhd as [ | y l Hxy]; cbn [insert_by]; [reflexivity | ].
  destruct (leb_not_nan _ _ Hxy) as [Hx Hy].
  destruct (float_cmp_cases (key x) (key y) Hx Hy) as [? ? ? ? -> | ? ? ? ? -> | ]; 
    try reflexivity.
  unfold key_le in Hxy. congruence.
Qed.

Lemma key_le_trans (a b c : A) : key_le key a b -> key_le key b c -> key_le key a c.
Proof. apply leb_trans. Qed.

Lemma Sorted_head_le (x : A) (l : list A) :
  Sorted (key_le key) (x :: l) -> Forall (key_le key x) l.
Proof.
  intros Hs. apply Sorted_StronglySorted in Hs.
  - inversion Hs; assumption.
  - intros a b c. apply key_le_trans.
Qed.

Lemma Sorted_last_le (l : list A) (z : A) :
  Sorted (key_le key) l -> last l = Some z -> Forall (fun y => y = z \/ key_le key y z) l.
Proof.
  intros Hs. apply Sorted_StronglySorted in Hs; [ | intros a b c; apply key_le_trans].
  induction Hs as [ | x l Hs IH Hx]; intros Hlast; [constructor | ].
  destruct l as [ | y l].
  - cbn in Hlast. injection Hlast as ->. repeat constructor.
  - rewrite last_cons_cons in Hlast. specialize (IH Hlast).
    constructor; [ | exact IH].
    right. apply list.Forall_forall with (x := z) in Hx; [exact Hx | ].
    apply last_Some_elem_of in Hlast. exact Hlast.
Qed.

Lemma Sorted_keys (l : list A) :
  Sorted (key_le key) l -> Sorted float_le (map key l).
Proof.
  induction 1 as [ | x l Hs IH Hhd]; cbn [map]; constructor; [exact IH | ].
  destruct Hhd; constructor. assumption.
Qed.
End SortingFacts.

(** * Properties of the snapshot assembler *)

Ltac lookup_key :=
  repeat (rewrite lookup_insert_ne by done); rewrite ?lookup_insert_eq; try reflexivity.

(** The physics-tick detector fires exactly when the timer was read and
    differs from the one remembered. *)
Lemma _has_physics_update_true (self : DataExtractor) (timer : value) :
  (_has_physics_update self timer).1 = true <->
  exists t, timer = VInt t /\ t <> _last_timer_value self.
Proof.
  unfold _has_physics_update.
  destruct timer as [ | t | x | s]; cbn [fst].
  - split; [discriminate | intros (t & [=] & _)].
  - rewrite negb_true_iff, Z.eqb_neq. split.
    + intros H; exists t; auto.
    + intros (t' & [= <-] & H); exact H.
  - split; [discriminate | intros (t & [=] & _)].
  - split; [discriminate | intros (t & [=] & _)].
Qed.

(** C6.  A snapshot never holds partial full-tier data.  The tick
    detector fires exactly when the timer was read and differs from the
    remembered one.  Without a tick every field other than [timer_value]
    and [race_completion_pct] is [None]; with a tick each of the thirteen
    full-tier fields holds what its reader returned for the same base. *)
Theorem get_snapshot_full_tier_all_or_nothing (self : DataExtractor) (proc : process) :
  let base := _read_race_data_ptr self proc in
  let timer := if base =? 0 then VNone else _read_timer self proc base in
  let tick := (_has_physics_update (set_race_data_ptr self base) timer).1 in
  let snap := (get_snapshot self proc).1 in
  (tick = true <-> exists t, timer = VInt t /\ t <> _last_timer_value self) /\
  (tick = false ->
     forall k v, snap !! k = Some v ->
       k = "timer_value" \/ k = "race_completion_pct" \/ v = VNone) /\
  (tick = true ->
     snap !! "velocity" = Some (_read_velocity self base) /\
     snap !! "car_angle" = Some (_read_car_angle self base) /\
     snap !! "car_position" = Some (_read_car_position self base) /\
     snap !! "camera_angle" = Some (_read_camera_angle self base) /\
     snap !! "camera_position" = Some (_read_camera_position self base) /\
     snap !! "checkpoint" = Some (_read_checkpoint self proc) /\
     snap !! "nitro_bar_pct" = Some (_read_nitro_bar self base) /\
     snap !! "nitro_state" = Some (_read_nitro_state self base) /\
     snap !! "drift_state" = Some (_read_drift_state self base) /\
     snap !! "360_state" = Some (_read_360_state self base) /\
     snap !! "gear" = Some (_read_gear self proc base) /\
     snap !! "engine_rpm" = Some (_read_rpm self proc base) /\
     snap !! "acceleration" = Some (_read_acceleration self base)).
Proof.
  intros base timer tick snap.
  split; [ | split].
  - subst tick. rewrite _has_physics_update_true. reflexivity.
  - intros Htick k v. subst snap. unfold get_snapshot.
    fold base.
    change (if base =? 0 then VNone
            else _read_timer (set_race_data_ptr self base) proc base) with timer.
    fold tick. 
    destruct (_has_physics_update (set_race_data_ptr self base) timer)
      as [tk self2] eqn:E.
    subst tick. cbn [fst] in Htick. subst tk. cbv beta iota zeta. unfold fst.
    repeat (rewrite lookup_insert; case_decide;
            [ intros [= <-]; subst k; auto | ]).
    rewrite lookup_empty. discriminate.
  - intros Htick. subst snap. unfold get_snapshot. fold base.
    change (if base =? 0 then VNone
            else _read_timer (set_race_data_ptr self base) proc base) with timer.
    destruct (_has_physics_update (set_race_data_ptr self base) timer)
      as [tk self2] eqn:E.
    subst tick. cbn [fst] in Htick. subst tk. cbv beta iota zeta. unfold fst.
    assert (Hpm : _pm self2 = _pm self /\ _p_checkpoint_slot self2 = _p_checkpoint_slot self).
    { unfold _has_physics_update in E. destruct timer; inversion E; subst; auto. }
    destruct Hpm as [Hpm Hcp].
    repeat split; lookup_key.
    + unfold _read_checkpoint, _read_checkpoint_ptr, with_pm. rewrite Hpm, Hcp. reflexivity.
    + unfold _read_gear, with_pm. rewrite Hpm. reflexivity.
    + unfold _read_rpm, with_pm. rewrite Hpm. reflexivity.
Qed.

Lemma get_snapshot_dom (self : DataExtractor) (proc : process) :
  dom (get_snapshot self proc).1 = list_to_set snapshot_keys.
Proof.
  unfold get_snapshot.
  destruct (_has_physics_update _ _) as [tick self2].
  destruct tick; cbv beta iota zeta; unfold fst;
    rewrite !dom_insert_L, dom_empty_L;
    unfold snapshot_keys, full_tier_keys; cbn [list_to_set]; set_solver.
Qed.

Lemma get_snapshot_detached :
  (get_snapshot DataExtractor_init empty_process).1 = EMPTY_FRAME.
Proof. vm_compute. reflexivity. Qed.

(** The key list of the design document is not the key set of a
    snapshot: there is no [rollover_state] key (the field is [360_state]). *)
Lemma get_snapshot_keys_not_documented :
  ~ (forall k, is_Some ((get_snapshot DataExtractor_init empty_process).1 !! k)
               <-> k ∈ documented_keys).
Proof.
  intros H. specialize (H "rollover_state").
  destruct H as [_ H]. 
  assert (Hin : "rollover_state" ∈ documented_keys).
  { unfold documented_keys. repeat (apply elem_of_cons; first [ left; reflexivity | right ]). }
  apply H in Hin. rewrite get_snapshot_detached in Hin.
  destruct Hin as [v Hv]. vm_compute in Hv. discriminate.
Qed.

Lemma opt_int_number (o : option Z) : is_None_or_number (opt_int o).
Proof. destruct o; exact I. Qed.

Lemma opt_float_number (o : option float) : is_None_or_number (opt_float o).
Proof. destruct o; exact I. Qed.

Lemma get_snapshot_values (self : DataExtractor) (proc : process) (k : string) (v : value) :
  (get_snapshot self proc).1 !! k = Some v -> is_None_or_number v.
Proof.
  unfold get_snapshot.
  destruct (_has_physics_update _ _) as [tick self2].
  assert (Ht : forall s b, is_None_or_number (if b =? 0 then VNone else _read_timer s proc b)).
  { intros s b. destruct (b =? 0); [exact I | apply opt_int_number]. }
  assert (Hp : forall s b, is_None_or_number
                 (if b =? 0 then VNone else _read_race_progress s proc b)).
  { intros s b. destruct (b =? 0); [exact I | apply opt_float_number]. }
  assert (Hc : forall s, is_None_or_number (_read_checkpoint s proc)).
  { intros s. unfold _read_checkpoint. destruct (_ =? 0); [exact I | apply opt_int_number]. }
  destruct tick; cbv beta iota zeta; unfold fst;
    repeat (rewrite lookup_insert; case_decide;
            [ intros [= <-];
              first [ exact I | apply Ht | apply Hp | apply Hc
                    | apply opt_int_number | apply opt_float_number ] | ]);
    rewrite lookup_empty; discriminate.
Qed.

(** C8 (amended).  The keys of every snapshot are exactly the fifteen of
    [snapshot_keys], with [360_state] where the design document writes
    [rollover_state]; every value is [None] or a number; and the snapshot
    of an extractor that is not attached is [EMPTY_FRAME], all [None]. *)
Theorem get_snapshot_schema (self : DataExtractor) (proc : process) :
  (forall k, is_Some ((get_snapshot self proc).1 !! k) <-> k ∈ snapshot_keys) /\
  (forall k v, (get_snapshot self proc).1 !! k = Some v -> is_None_or_number v) /\
  (get_snapshot DataExtractor_init empty_process).1 = EMPTY_FRAME /\
  (forall k, k ∈ snapshot_keys -> EMPTY_FRAME !! k = Some VNone).
Proof.
  split; [ | split; [ | split]].
  - intros k. rewrite <- elem_of_dom, get_snapshot_dom, elem_of_list_to_set. reflexivity.
  - apply get_snapshot_values.
  - apply get_snapshot_detached.
  - intros k Hk. unfold snapshot_keys, full_tier_keys in Hk.
    repeat (apply elem_of_cons in Hk as [-> | Hk]; [ vm_compute; reflexivity | ]).
    inversion Hk.
Qed.

(** * Properties of the trampoline injection *)

Lemma write_bytes_outside (bs : list byte) (m : gmap Z byte) (a x : Z) :
  x < a \/ a + Z.of_nat (length bs) <= x ->
  write_bytes m a bs !! x = m !! x.
Proof.
  revert m a. induction bs as [ | b bs IH]; intros m a Hx; cbn [write_bytes];
    [reflexivity | ].
  cbn [length] in Hx. rewrite IH by lia. apply lookup_insert_ne. lia.
Qed.





Lemma pack_i_Some (v : Z) :
  - 2 ^ 31 <= v < 2 ^ 31 -> exists bs, pack_i v = Some bs /\ length bs = 4%nat.
Proof.
  intros H. unfold pack_i.
  destruct (Z.leb_spec (- 2 ^ 31) v); [ | lia].
  destruct (Z.ltb_spec v (2 ^ 31)); [ | lia].
  cbn [andb]. eexists. split; reflexivity.
Qed.

Lemma pack_i_length (v : Z) (bs : list byte) : pack_i v = Some bs -> length bs = 4%nat.
Proof.
  unfold pack_i. destruct (_ && _); [ | discriminate]. intros [= <-]. reflexivity.
Qed.


Lemma pack_i_iff (v : Z) : is_Some (pack_i v) <-> - 2 ^ 31 <= v < 2 ^ 31.
Proof.
  unfold pack_i.
  destruct (Z.leb_spec (- 2 ^ 31) v); destruct (Z.ltb_spec v (2 ^ 31)); cbn [andb];
    split; intros H'; try lia; try (eexists; reflexivity); destruct H' as [? [=]].
Qed.






(** * Properties of the best-split recomputation *)

Lemma get_slim_entry_timer (t : Z) (p : value) :
  get (slim_entry t p) "timer_value" = VInt t.
Proof. unfold get, slim_entry. rewrite lookup_insert_eq. reflexivity. Qed.

Lemma get_slim_entry_pct (t : Z) (p : value) :
  get (slim_entry t p) "race_completion_pct" = p.
Proof.
  unfold get, slim_entry.
  rewrite lookup_insert_ne by done. rewrite lookup_insert_eq. reflexivity.
Qed.

Lemma timer_value_slim_entry (t : Z) (p : value) :
  timer_value (slim_entry t p) = Some t.
Proof. unfold timer_value. rewrite get_slim_entry_timer. reflexivity. Qed.

Lemma race_completion_pct_slim_entry (t : Z) (p : value) :
  race_completion_pct (slim_entry t p) = as_float p.
Proof. unfold race_completion_pct. rewrite get_slim_entry_pct. reflexivity. Qed.

Lemma in_region_slim_entry (s e : float) (t : Z) (f : gmap string value) :
  in_region s e (slim_entry t (get f "race_completion_pct")) = in_region s e f.
Proof.
  unfold in_region. rewrite race_completion_pct_slim_entry. reflexivity.
Qed.


Lemma _slim_app (l1 l2 : list (gmap string value)) (off : Z) :
  _slim (l1 ++ l2) off = _slim l1 off ++ _slim l2 off.
Proof.
  induction l1 as [ | f l1 IH]; cbn [_slim app]; [reflexivity | ].
  destruct (timer_value f); rewrite IH; reflexivity.
Qed.

Lemma _slim_in_region (frames : list (gmap string value)) (s e : float) (off : Z) :
  Forall (fun x => in_region s e x = true /\ is_slim x)
         (_slim (_frames_in_region frames s e) off).
Proof.
  unfold _frames_in_region.
  induction frames as [ | f frames IH]; cbn [List.filter _slim]; [constructor | ].
  destruct (in_region s e f) eqn:Hin; [ | exact IH].
  cbn [_slim]. destruct (timer_value f) as [t | ]; [ | exact IH].
  constructor; [ | exact IH]. split.
  - rewrite in_region_slim_entry. exact Hin.
  - unfold in_region, race_completion_pct in Hin.
    destruct (get f "race_completion_pct") as [ | n | x | str]; try discriminate.
    eexists _, _. reflexivity.
Qed.

(** Entries that are already slim are kept as they are. *)
Lemma _slim_verbatim (l : list (gmap string value)) :
  Forall is_slim l -> _slim l 0 = l.
Proof.
  induction 1 as [ | e l (t & p & ->) _ IH]; cbn [_slim]; [reflexivity | ].
  rewrite timer_value_slim_entry, get_slim_entry_pct, Z.add_0_r, IH. reflexivity.
Qed.

Lemma Forall_filter_keeps {A} (P : A -> Prop) (f : A -> bool) (l : list A) :
  Forall P l -> Forall P (List.filter f l).
Proof.
  induction 1 as [ | x l Hx _ IH]; cbn [List.filter]; [constructor | ].
  destruct (f x); [constructor | ]; assumption.
Qed.

(** The entries [_slim] writes with offset [off]: the frames that carry a
    timer, each with [off] added to it. *)
Lemma _slim_spec (l : list (gmap string value)) (off : Z) :
  _slim l off =
  map (fun f => slim_entry (tv f + off) (get f "race_completion_pct"))
      (List.filter (fun f => bool_decide (is_Some (timer_value f))) l).
Proof.
  induction l as [ | f l IH]; cbn [_slim List.filter map]; [reflexivity | ].
  unfold tv at 1. destruct (timer_value f) as [t | ] eqn:E.
  - rewrite bool_decide_eq_true_2 by eauto. cbn [map]. unfold tv. rewrite E, IH.
    reflexivity.
  - rewrite bool_decide_eq_false_2 by (intros [? ?]; discriminate). exact IH.
Qed.

(** The loop only ever appends to [assembled_best]. *)
Lemma region_step_app (old_best new_frames acc : list (gmap string value))
    (b : float * float * value) :
  region_step old_best new_frames acc b =
  acc ++ region_step old_best new_frames [] b.
Proof.
  destruct b as [[s e] n]. unfold region_step.
  destruct (_split_timer (_frames_in_region new_frames s e) e) as [nt | ];
    [ | reflexivity].
  destruct (match _split_timer (_frames_in_region old_best s e) e with
            | Some ot => nt <=? ot | None => true end); reflexivity.
Qed.

Lemma fold_region_step (old_best new_frames : list (gmap string value))
    (bs : list (float * float * value)) (acc : list (gmap string value)) :
  fold_left (region_step old_best new_frames) bs acc =
  acc ++ concat (map (region_step old_best new_frames []) bs).
Proof.
  revert acc. induction bs as [ | b bs IH]; intros acc; cbn [fold_left map concat].
  - rewrite app_nil_r. reflexivity.
  - rewrite IH, region_step_app, <- app_assoc. reflexivity.
Qed.

Lemma _compute_best_splits_concat (old_best new_frames splits : list (gmap string value)) :
  _compute_best_splits old_best new_frames splits =
  concat (map (region_step old_best new_frames []) (boundaries splits)).
Proof. unfold _compute_best_splits. rewrite fold_region_step. reflexivity. Qed.

(** [_split_timer] answers exactly when a frame carries both a timer and a
    progress comparable with the boundary. *)
Lemma _split_timer_None (frames : list (gmap string value)) (at_pct : float) :
  _split_timer frames at_pct = None <->
  List.filter (is_before at_pct) frames = [] /\ List.filter (is_after at_pct) frames = [].
Proof.
  unfold _split_timer.
  destruct (List.filter (is_before at_pct) frames) as [ | b bl] eqn:Eb;
    destruct (List.filter (is_after at_pct) frames) as [ | a al] eqn:Ea.
  - cbn. tauto.
  - cbn. split; [discriminate | intros [_ [=]]].
  - destruct (last_is_Some (b :: bl)) as [_ [x ->]]; [discriminate | ].
    cbn. split; [discriminate | intros [[=] _]].
  - destruct (last_is_Some (b :: bl)) as [_ [x ->]]; [discriminate | ].
    cbn. destruct (PrimFloat.eqb _ _); split; try discriminate; intros [[=] _].
Qed.

(** The re-basing offset of a region that has new data is the new run's
    timer at the region's start boundary: the [or 0] of the source never
    applies. *)
Lemma _split_timer_start (frames : list (gmap string value)) (s e : float) (nt : Z) :
  _split_timer (_frames_in_region frames s e) e = Some nt ->
  exists off, _split_timer (_frames_in_region frames s e) s = Some off.
Proof.
  intros Hnt.
  destruct (_split_timer (_frames_in_region frames s e) s) as [off | ] eqn:Hs; eauto.
  exfalso. apply _split_timer_None in Hs as [_ Hafter].
  assert (Hsome : _split_timer (_frames_in_region frames s e) e <> None) by congruence.
  rewrite _split_timer_None in Hsome.
  assert (Hex : exists f, In f (_frames_in_region frames s e) /\
                          is_Some (timer_value f)).
  { destruct (List.filter (is_before e) (_frames_in_region frames s e)) as [ | f l] eqn:Eb.
    - destruct (List.filter (is_after e) (_frames_in_region frames s e)) as [ | f l] eqn:Ea.
      + tauto.
      + assert (Hf : In f (f :: l)) by (left; reflexivity).
        rewrite <- Ea in Hf. apply filter_In in Hf as [Hin Hf].
        exists f. split; [exact Hin | ].
        unfold is_after in Hf. destruct (race_completion_pct f), (timer_value f);
          try discriminate; eauto.
    - assert (Hf : In f (f :: l)) by (left; reflexivity).
      rewrite <- Eb in Hf. apply filter_In in Hf as [Hin Hf].
      exists f. split; [exact Hin | ].
      unfold is_before in Hf. destruct (race_completion_pct f), (timer_value f);
        try discriminate; eauto. }
  destruct Hex as (f & Hin & [t Ht]).
  assert (Haf : In f (List.filter (is_after s) (_frames_in_region frames s e))).
  { apply filter_In. split; [exact Hin | ].
    unfold _frames_in_region in Hin. apply filter_In in Hin as [_ Hreg].
    unfold in_region in Hreg. unfold is_after. rewrite Ht.
    destruct (race_completion_pct f); [ | discriminate].
    apply andb_true_iff in Hreg as [H _]. exact H. }
  rewrite Hafter in Haf. destruct Haf.
Qed.

(** The loop that builds the regions of the configured splits. *)
Lemma boundaries_loop (l : list (gmap string value))
    (bs : list (float * float * value)) (prev : float) :
  exists bs' prev',
    fold_left boundary_step
      l (bs, prev) = (bs ++ bs', prev') /\
    map region_end bs' = map race_completion l /\
    (forall n, contiguous prev (bs' ++ [(prev', 100%float, n)]) 100%float).
Proof.
  revert bs prev. induction l as [ | sp l IH]; intros bs prev; cbn [fold_left boundary_step].
  - exists [], prev. rewrite app_nil_r. repeat split. intros n. constructor.
  - destruct (IH (bs ++ [(prev, race_completion sp, split_name sp)]) (race_completion sp))
      as (bs' & prev' & Hfold & Hends & Hcont).
    exists ((prev, race_completion sp, split_name sp) :: bs'), prev'.
    rewrite Hfold, <- app_assoc. repeat split.
    + cbn [map]. rewrite Hends. reflexivity.
    + intros n. cbn [app]. constructor. apply Hcont.
Qed.

Lemma boundaries_regions (splits : list (gmap string value)) :
  contiguous 0%float (boundaries splits) 100%float /\
  map region_end (boundaries splits) =
    map race_completion (sorted race_completion splits) ++ [100%float].
Proof.
  unfold boundaries.
  destruct (sorted race_completion splits) as [ | sp l] eqn:E.
  - split; [constructor | reflexivity].
  - destruct (boundaries_loop (sp :: l) [] 0%float) as (bs' & prev' & Hfold & Hends & Hcont).
    rewrite Hfold. cbn [app]. split; [apply Hcont | ].
    rewrite map_app, Hends. reflexivity.
Qed.

Lemma boundaries_no_splits : boundaries [] = [(0%float, 100%float, VStr "Full Run")].
Proof. reflexivity. Qed.


Lemma tv_slim_entry (t : Z) (p : value) : tv (slim_entry t p) = t.
Proof. unfold tv. rewrite timer_value_slim_entry. reflexivity. Qed.

Lemma rp_entry (t : Z) (p : float) : rp (entry t p) = p.
Proof. unfold rp, entry. rewrite race_completion_pct_slim_entry. reflexivity. Qed.

(** Everything the recomputation stores is a slim entry. *)
Lemma _compute_best_splits_slim (old_best new_frames splits : list (gmap string value)) :
  Forall is_slim (_compute_best_splits old_best new_frames splits).
Proof.
  rewrite _compute_best_splits_concat. apply Forall_concat.
  apply list.Forall_forall. intros part Hpart.
  apply list_elem_of_fmap in Hpart as ([[s e] n] & -> & _).
  unfold region_step. cbn [app].
  assert (H : forall frames off, Forall is_slim (_slim (_frames_in_region frames s e) off)).
  { intros frames off. eapply Forall_impl; [apply _slim_in_region | ].
    cbn beta. intros x [_ Hx]. exact Hx. }
  destruct (_split_timer (_frames_in_region new_frames s e) e) as [nt | ]; [ | apply H].
  destruct (match _split_timer (_frames_in_region old_best s e) e with
            | Some ot => nt <=? ot | None => true end); apply H.
Qed.

(** A list of slim entries is known by its timers and progress values. *)
Lemma slim_entries_eq (l : list (gmap string value)) (pairs : list (Z * float)) :
  Forall is_slim l ->
  map (fun f => (tv f, rp f)) l = pairs ->
  l = map (fun tp => entry tp.1 tp.2) pairs.
Proof.
  intros Hl <-. induction Hl as [ | e l (t & p & ->) _ IH]; cbn [map]; [reflexivity | ].
  rewrite <- IH. cbn [fst snd]. fold (entry t p). rewrite rp_entry.
  unfold entry. rewrite tv_slim_entry. reflexivity.
Qed.

Ltac best_splits_by_pairs :=
  match goal with
  | |- _compute_best_splits ?o ?n ?s = ?r =>
      rewrite (slim_entries_eq (_compute_best_splits o n s)
                 (map (fun f => (tv f, rp f)) r)
                 (_compute_best_splits_slim o n s));
      [ reflexivity | vm_compute; reflexivity ]
  end.

Lemma scenario_run_result :
  _compute_best_splits scenario_best scenario_run scenario_splits =
    [entry 0 0; entry 1000 50; entry 0 50;
     entry 1000 50; entry 0 50; entry 1200 100]%float.
Proof. best_splits_by_pairs. Qed.

Lemma scenario_run_restarted_result :
  _compute_best_splits scenario_best scenario_run_restarted scenario_splits =
    [entry 0 0; entry 900 50; entry 0 50;
     entry 1000 50; entry 0 50; entry 1200 100]%float.
Proof. best_splits_by_pairs. Qed.

Lemma slower_run_result :
  _compute_best_splits scenario_best slower_run scenario_splits =
    [entry 0 0; entry 1000 50; entry 0 50;
     entry 1000 50; entry 0 50; entry 1200 100]%float.
Proof. best_splits_by_pairs. Qed.

Lemma faster_run_result :
  _compute_best_splits scenario_best faster_run scenario_splits =
    [entry 0 0; entry 1000 50; entry 0 50;
     entry 1000 50; entry 0 50; entry 1200 100]%float.
Proof. best_splits_by_pairs. Qed.

(** C2.  The scenario evaluated.  With the run as the game's timer
    reports it, the stored boundary timer of region 1 reads 0 (the entry
    that starts region 2 lies in region 1 as well), so the faster region 1
    is not replaced: both regions are kept, the entries at the split are
    stored twice, and the ghost answers 1000 at 50 % and 1200 at 100 %.
    With the timer restarted at the split, region 1 is replaced, on the
    comparison of 0 with 0. *)
Theorem scenario_first_region_not_replaced :
  let best := _compute_best_splits scenario_best scenario_run scenario_splits in
  let best' := _compute_best_splits scenario_best scenario_run_restarted scenario_splits in
  (* the running timer: both regions are kept and the total stays 2200 *)
  best = [entry 0 0; entry 1000 50; entry 0 50;
          entry 1000 50; entry 0 50; entry 1200 100]%float /\
  _split_timer (_frames_in_region scenario_run 0 50) 50 = Some 900 /\
  _split_timer (_frames_in_region scenario_best 0 50) 50 = Some 0 /\
  interpolate_ghost_timer (ghost_with best) 50 = Some 1000%float /\
  interpolate_ghost_timer (ghost_with best) 100 = Some 1200%float /\
  (* the restarted timer: region 1 is replaced on the comparison 0 <= 0 *)
  best' = [entry 0 0; entry 900 50; entry 0 50;
           entry 1000 50; entry 0 50; entry 1200 100]%float /\
  _split_timer (_frames_in_region scenario_run_restarted 0 50) 50 = Some 0.
Proof.
  intros best best'. subst best best'.
  rewrite scenario_run_result, scenario_run_restarted_result.
  split; [reflexivity | ].
  split; [vm_compute; reflexivity | ].
  split; [vm_compute; reflexivity | ].
  split; [vm_compute; reflexivity | ].
  split; [vm_compute; reflexivity | ].
  split; [reflexivity | vm_compute; reflexivity].
Qed.

(** C3.  A run slower at both boundaries does not leave [best_splits]
    as it was: the entries at the split are stored a second time.  A run
    faster in both regions replaces no region. *)
Theorem slower_run_changes_best_splits :
  (* slower at both boundaries, yet the stored list is not left as it was *)
  _split_timer (_frames_in_region slower_run 0 50) 50 = Some 1100 /\
  _split_timer (_frames_in_region slower_run 50 100) 100 = Some 2500 /\
  _compute_best_splits scenario_best slower_run scenario_splits =
    [entry 0 0; entry 1000 50; entry 0 50;
     entry 1000 50; entry 0 50; entry 1200 100]%float /\
  _compute_best_splits scenario_best slower_run scenario_splits <> scenario_best /\
  (* faster in both regions, yet no region is replaced *)
  _split_timer (_frames_in_region faster_run 0 50) 50 = Some 900 /\
  _split_timer (_frames_in_region faster_run 50 100) 100 = Some 2000 /\
  _compute_best_splits scenario_best faster_run scenario_splits =
    [entry 0 0; entry 1000 50; entry 0 50;
     entry 1000 50; entry 0 50; entry 1200 100]%float.
Proof.
  rewrite slower_run_result, faster_run_result.
  split; [vm_compute; reflexivity | ].
  split; [vm_compute; reflexivity | ].
  split; [reflexivity | ].
  split; [intros H; apply (f_equal length) in H; discriminate | ].
  split; [vm_compute; reflexivity | ].
  split; [vm_compute; reflexivity | reflexivity].
Qed.

(** C1 (code bug).  A re-based region need not start at 0.  For a
    first run with two frames at 0 % (timers 5 and 7) and one at 10 %
    (timer 9), no stored best and no splits, the one region is taken from
    the new run, as stated; but the timer subtracted is the one
    [_split_timer] finds at the start boundary, that of the last frame at
    0 %, which is 7 and not 5: the stored timers are -2, 0 and 2, and the
    region starts at -2. *)
Theorem rebased_region_starts_below_zero :
  _split_timer (_frames_in_region standing_start_run 0 100) 0 = Some 7 /\
  _compute_best_splits [] standing_start_run [] =
    [entry (-2) 0; entry 0 0; entry 2 10]%float /\
  (tv <$> head (_compute_best_splits [] standing_start_run [])) = Some (-2) /\
  ~ starts_at_zero (_compute_best_splits [] standing_start_run []).
Proof.
  assert (H : _compute_best_splits [] standing_start_run [] =
              [entry (-2) 0; entry 0 0; entry 2 10]%float) by best_splits_by_pairs.
  rewrite H. split; [vm_compute; reflexivity | ]. split; [reflexivity | ].
  split; [reflexivity | ].
  intros Hz. specialize (Hz _ eq_refl). unfold entry in Hz.
  rewrite timer_value_slim_entry in Hz. discriminate.
Qed.

(** * Properties of the ghost store *)

(* [naive_solver] clears hypotheses that are already gone. *)
Set Warnings "-clear-no-such-hyp".

Lemma find_missing_None (doc : gmap string (list (gmap string value))) :
  List.find (fun k => negb (bool_decide (is_Some (doc !! k)))) required_keys = None <->
  forall k, k ∈ required_keys -> is_Some (doc !! k).
Proof.
  split.
  - intros H k Hk. apply list_elem_of_In in Hk.
    pose proof (find_none _ _ H k Hk) as Hf. cbn beta in Hf.
    apply negb_false_iff, bool_decide_eq_true in Hf. exact Hf.
  - intros H. destruct (List.find _ _) as [k | ] eqn:E; [ | reflexivity].
    apply find_some in E as [Hk Hf]. apply list_elem_of_In in Hk.
    apply negb_true_iff, bool_decide_eq_false in Hf. destruct (Hf (H k Hk)).
Qed.

Lemma find_missing_Some (doc : gmap string (list (gmap string value))) (k : string) :
  List.find (fun k => negb (bool_decide (is_Some (doc !! k)))) required_keys = Some k ->
  k ∈ required_keys /\ doc !! k = None.
Proof.
  intros E. apply find_some in E as [Hk Hf]. apply list_elem_of_In in Hk.
  apply negb_true_iff, bool_decide_eq_false in Hf. split; [exact Hk | ].
  destruct (doc !! k); [exfalso; apply Hf; eauto | reflexivity].
Qed.

(** What [load_ghost] does, by what the path holds. *)
Lemma load_ghost_cases (self : GhostManager) (fs : gmap string node) (filepath : string) :
  match fs !! filepath with
  | None | Some Dir => load_ghost self fs filepath = (Raise FileNotFoundError, self)
  | Some (File false _) => load_ghost self fs filepath = (Raise PermissionError, self)
  | Some (File true NotUtf8) => load_ghost self fs filepath = (Raise UnicodeDecodeError, self)
  | Some (File true NotJson) => load_ghost self fs filepath = (Raise JSONDecodeError, self)
  | Some (File true (Json doc)) =>
      ((exists k, k ∈ required_keys /\ doc !! k = None) /\
       load_ghost self fs filepath = (Raise ValueError, self)) \/
      ((forall k, k ∈ required_keys -> is_Some (doc !! k)) /\
       load_ghost self fs filepath =
         (Ok doc, {| _active_ghost := Some doc; _active_path := Some filepath |}))
  end.
Proof.
  unfold load_ghost, isfile, read_json.
  destruct (fs !! filepath) as [[ | [ | ] [ | | doc]] | ]; cbn [negb]; try reflexivity.
  destruct (List.find _ required_keys) as [k | ] eqn:E.
  - left. split; [ | reflexivity]. exists k. apply find_missing_Some. exact E.
  - right. split; [ | reflexivity]. apply find_missing_None. exact E.
Qed.

(** C7 (amended).  [load_ghost] raises [FileNotFoundError] exactly when
    the path holds no regular file; it raises a [ValueError] exactly when
    the file is readable and is not UTF-8, is not JSON, or is a document
    that lacks one of the three keys; it raises [PermissionError] exactly
    when the file cannot be opened; it returns a document exactly when the
    file holds that document with all three keys, and then makes it the
    active ghost.  Nothing is substituted for what the file holds. *)
Theorem load_ghost_outcomes (self : GhostManager) (fs : gmap string node)
    (filepath : string) :
  let r := (load_ghost self fs filepath).1 in
  (r = Raise FileNotFoundError <-> isfile fs filepath = false) /\
  ((exists e, r = Raise e /\ is_ValueError e = true) <->
     fs !! filepath = Some (File true NotUtf8) \/
     fs !! filepath = Some (File true NotJson) \/
     missing_key fs filepath) /\
  (r = Raise PermissionError <-> exists c, fs !! filepath = Some (File false c)) /\
  (forall doc,
     r = Ok doc <->
     read_json fs filepath = Ok doc /\ forall k, k ∈ required_keys -> is_Some (doc !! k)) /\
  (forall doc,
     r = Ok doc ->
     fs !! filepath = Some (File true (Json doc)) /\
     (load_ghost self fs filepath).2 =
       {| _active_ghost := Some doc; _active_path := Some filepath |}).
Proof.
  intros r; subst r.
  pose proof (load_ghost_cases self fs filepath) as H.
  unfold missing_key, isfile, read_json.
  destruct (fs !! filepath) as [[ | [ | ] [ | | doc]] | ] eqn:E.
  1-3, 5-8: rewrite H; cbn [fst snd is_ValueError]; naive_solver.
  destruct H as [[(k & Hk & Hnone) ->] | [Hall ->]]; cbn [fst snd is_ValueError].
  - assert (Hno : ~ forall k, k ∈ required_keys -> is_Some (doc !! k)).
    { intros Hd. destruct (Hd k Hk) as [? ?]. congruence. }
    naive_solver.
  - assert (Hno : ~ exists k, k ∈ required_keys /\ doc !! k = None).
    { intros (k & Hk & Hnone). destruct (Hall k Hk) as [? ?]. congruence. }
    naive_solver.
Qed.

(** A file whose text is not JSON does not parse, and [load_ghost] raises
    a [ValueError] for it all the same: [json.JSONDecodeError]. *)
Lemma load_ghost_not_json_is_ValueError :
  ~ parses {[ "ghost.json" := File true NotJson ]} "ghost.json" /\
  (load_ghost GhostManager_init {[ "ghost.json" := File true NotJson ]} "ghost.json").1
    = Raise JSONDecodeError /\
  is_ValueError JSONDecodeError = true.
Proof.
  split; [ | split; [ | reflexivity]].
  - intros [doc H]. unfold read_json in H. rewrite lookup_singleton_eq in H. discriminate.
  - unfold load_ghost, isfile, read_json. rewrite lookup_singleton_eq. reflexivity.
Qed.

(** [save_race_data] on a file that cannot be opened, or whose text is
    not JSON: the ghost starts over from the empty one. *)
Lemma save_race_data_corrupt (self : GhostManager) (fs : gmap string node)
    (filepath : string) (race_frames : list (gmap string value))
    (r : bool) (c : content) :
  fs !! filepath = Some (File r c) ->
  r = false \/ c = NotJson ->
  save_race_data self fs filepath race_frames =
    (Ok tt,
     {| _active_ghost := Some (fresh_ghost race_frames);
        _active_path := Some filepath |},
     <[filepath := File r (Json (fresh_ghost race_frames))]> fs).
Proof.
  intros Hfs Hc. unfold save_race_data, load_or_initialise, isfile, read_json, write_json.
  rewrite Hfs.
  assert (Hempty : EMPTY_GHOST !! "splits" = Some [] /\ EMPTY_GHOST !! "best_splits" = Some []).
  { split; reflexivity. }
  destruct Hempty as [Hs Hb].
  destruct Hc as [-> | ->]; [ | destruct r]; cbn [is_OSError];
    try (destruct c); rewrite Hs, Hb; reflexivity.
Qed.

(** A file that is not UTF-8 makes [save_race_data] raise: the
    [UnicodeDecodeError] of [json.load] is neither a
    [json.JSONDecodeError] nor an [OSError]. *)
Lemma save_race_data_not_utf8 (self : GhostManager) (fs : gmap string node)
    (filepath : string) (race_frames : list (gmap string value)) :
  fs !! filepath = Some (File true NotUtf8) ->
  save_race_data self fs filepath race_frames = (Raise UnicodeDecodeError, self, fs).
Proof.
  intros Hfs. unfold save_race_data, load_or_initialise, isfile, read_json.
  rewrite Hfs. reflexivity.
Qed.

(** C10.  A ghost file that is not valid UTF-8 exists and cannot be parsed,
    and [save_race_data] raises for it and leaves the disk as it is; a file
    whose text is not JSON is replaced by the ghost of the new run. *)
Theorem save_race_data_undecodable_file_raises :
  let fs : gmap string node := {[ "ghost.json" := File true NotUtf8 ]} in
  let run := [frame 0 0; frame 900 50; frame 2200 100]%float in
  isfile fs "ghost.json" = true /\
  (forall doc, read_json fs "ghost.json" <> Ok doc) /\
  save_race_data GhostManager_init fs "ghost.json" run =
    (Raise UnicodeDecodeError, GhostManager_init, fs) /\
  save_race_data GhostManager_init {[ "ghost.json" := File true NotJson ]} "ghost.json" run =
    (Ok tt,
     {| _active_ghost := Some (fresh_ghost run); _active_path := Some "ghost.json" |},
     {[ "ghost.json" := File true (Json (fresh_ghost run)) ]}).
Proof.
  intros fs run. split; [ | split; [ | split]].
  - unfold isfile, fs. rewrite lookup_singleton_eq. reflexivity.
  - intros doc. unfold read_json, fs. rewrite lookup_singleton_eq. discriminate.
  - apply save_race_data_not_utf8. apply lookup_singleton_eq.
  - erewrite save_race_data_corrupt; [ | apply lookup_singleton_eq | right; reflexivity].
    rewrite insert_singleton_eq. reflexivity.
Qed.

Lemma region_step_in_region (old_best new_frames : list (gmap string value))
    (b : float * float * value) :
  Forall (fun x => in_region (region_start b) (region_end b) x = true)
         (region_step old_best new_frames [] b).
Proof.
  destruct b as [[s e] n]. unfold region_step, region_start, region_end. cbn [fst snd app].
  assert (H : forall frames off,
             Forall (fun x => in_region s e x = true)
                    (_slim (_frames_in_region frames s e) off)).
  { intros frames off. eapply Forall_impl; [apply _slim_in_region | ].
    cbn beta. intros x [Hx _]. exact Hx. }
  destruct (_split_timer (_frames_in_region new_frames s e) e) as [nt | ]; [ | apply H].
  destruct (match _split_timer (_frames_in_region old_best s e) e with
            | Some ot => nt <=? ot | None => true end); apply H.
Qed.

Lemma save_race_data_from (self : GhostManager) (fs : gmap string node)
    (filepath : string) (race_frames : list (gmap string value))
    (ghost : gmap string (list (gmap string value))) :
  load_or_initialise fs filepath = Ok ghost ->
  fs !! filepath <> Some Dir ->
  exists r,
    save_race_data self fs filepath race_frames =
      (Ok tt,
       {| _active_ghost := Some (updated_ghost ghost race_frames);
          _active_path := Some filepath |},
       <[filepath := File r (Json (updated_ghost ghost race_frames))]> fs) /\
    (r = true <-> forall c, fs !! filepath <> Some (File false c)).
Proof.
  intros Hload Hdir. unfold save_race_data. rewrite Hload.
  fold (updated_ghost ghost race_frames). unfold write_json.
  destruct (fs !! filepath) as [[ | r c] | ]; [congruence | | ].
  - exists r. split; [reflexivity | ]. destruct r; naive_solver.
  - exists true. split; [reflexivity | ]. naive_solver.
Qed.

Lemma load_ghost_updated (self : GhostManager) (fs : gmap string node)
    (filepath : string) (ghost : gmap string (list (gmap string value)))
    (race_frames : list (gmap string value)) :
  is_Some (ghost !! "splits") ->
  load_ghost self
    (<[filepath := File true (Json (updated_ghost ghost race_frames))]> fs) filepath =
  (Ok (updated_ghost ghost race_frames),
   {| _active_ghost := Some (updated_ghost ghost race_frames);
      _active_path := Some filepath |}).
Proof.
  intros Hsplits. unfold load_ghost, isfile, read_json.
  rewrite lookup_insert_eq. cbn [negb].
  assert (Hfind : List.find
            (fun k => negb (bool_decide (is_Some (updated_ghost ghost race_frames !! k))))
            required_keys = None).
  { apply find_missing_None. intros k Hk. unfold required_keys in Hk.
    unfold updated_ghost.
    repeat (apply elem_of_cons in Hk as [-> | Hk]).
    - rewrite !lookup_insert_ne by done. exact Hsplits.
    - rewrite lookup_insert_eq. eauto.
    - rewrite lookup_insert_ne by done. rewrite lookup_insert_eq. eauto.
    - inversion Hk. }
  rewrite Hfind. reflexivity.
Qed.




Set Warnings "clear-no-such-hyp".

(** * Properties of the interpolation *)

Lemma leb_ltb_trans (x y z : float) :
  PrimFloat.leb x y = true -> PrimFloat.ltb y z = true -> PrimFloat.ltb x z = true.
Proof.
  intros H1 H2.
  destruct (leb_not_nan _ _ H1) as [Hx Hy]. destruct (ltb_not_nan _ _ H2) as [_ Hz].
  destruct (float_cmp_cases x z Hx Hz) as [ | ? ? ? Hzx | ? ? ? Hzx]; try assumption; exfalso.
  - pose proof (leb_trans _ _ _ Hzx H1) as Hzy.
    destruct (float_cmp_cases y z Hy Hz); congruence.
  - pose proof (leb_trans _ _ _ Hzx H1) as Hzy.
    destruct (float_cmp_cases y z Hy Hz); congruence.
Qed.

Lemma ltb_not_leb (x y : float) :
  PrimFloat.ltb x y = true -> PrimFloat.leb y x = false.
Proof.
  intros H. destruct (ltb_not_nan _ _ H) as [Hx Hy].
  destruct (float_cmp_cases x y Hx Hy); congruence.
Qed.

Lemma interpolate_ghost_timer_unfold (g : gmap string (list (gmap string value)))
    (path : option string) (p : float) :
  interpolate_ghost_timer (manager_of g path) p =
  match head (valid_entries g), last (valid_entries g) with
  | Some first, Some lst =>
      if PrimFloat.leb p (rp first) then Some (float_of_int (tv first))
      else if PrimFloat.leb (rp lst) p then Some (float_of_int (tv lst))
      else bracket p (valid_entries g)
  | _, _ => None
  end.
Proof.
  unfold interpolate_ghost_timer, manager_of, valid_entries. cbn [_active_ghost].
  destruct (default [] (g !! "best_splits")); reflexivity.
Qed.

(** When the progress lies strictly inside the range, the loop finds an
    adjacent pair around it. *)
Lemma bracket_found (p : float) (l : list (gmap string value)) (x z : gmap string value) :
  not_nan p -> Forall (fun e => not_nan (rp e)) (x :: l) ->
  last (x :: l) = Some z ->
  PrimFloat.leb p (rp x) = false -> PrimFloat.leb (rp z) p = false ->
  exists l1 e0 e1 l2,
    x :: l = l1 ++ e0 :: e1 :: l2 /\
    PrimFloat.leb (rp e0) p = true /\ PrimFloat.leb p (rp e1) = true /\
    bracket p (x :: l) =
      Some (if PrimFloat.eqb (rp e0) (rp e1) then float_of_int (tv e0)
            else lerp (tv e0) (rp e0) (tv e1) (rp e1) p).
Proof.
  intros Hp. revert x. induction l as [ | y l IH]; intros x Hnan Hlast Hx Hz.
  - cbn in Hlast. injection Hlast as <-.
    inversion Hnan as [ | ? ? Hnx _]; subst.
    apply leb_total in Hx; [ | assumption | assumption].
    apply ltb_leb in Hx. congruence.
  - inversion Hnan as [ | ? ? Hnx Hnan']; subst.
    assert (Hxp : PrimFloat.leb (rp x) p = true).
    { apply ltb_leb. apply leb_total; assumption. }
    destruct (PrimFloat.leb p (rp y)) eqn:Hy.
    + exists [], x, y, l. cbn [app bracket]. rewrite Hxp, Hy. cbn [andb].
      repeat split. destruct (PrimFloat.eqb (rp x) (rp y)); reflexivity.
    + rewrite last_cons_cons in Hlast.
      destruct (IH y Hnan' Hlast Hy Hz) as (l1 & e0 & e1 & l2 & Heq & H0 & H1 & Hb).
      exists (x :: l1), e0, e1, l2. rewrite Heq. repeat split; try assumption.
      rewrite <- Heq. cbn [bracket]. rewrite Hxp, Hy. cbn [andb]. exact Hb.
Qed.

(** In an ascending list, a progress that some entry has, and that lies
    above the first entry, is bracketed by a pair whose upper end has it. *)
Lemma bracket_exact (p : float) (l : list (gmap string value)) (x : gmap string value) :
  Sorted (key_le rp) (x :: l) ->
  PrimFloat.leb p (rp x) = false ->
  (exists e, e ∈ x :: l /\ PrimFloat.eqb (rp e) p = true) ->
  exists e0 e1,
    e0 ∈ x :: l /\ e1 ∈ x :: l /\
    PrimFloat.eqb (rp e1) p = true /\ PrimFloat.eqb (rp e0) (rp e1) = false /\
    bracket p (x :: l) = Some (lerp (tv e0) (rp e0) (tv e1) (rp e1) p).
Proof.
  revert x. induction l as [ | y l IH]; intros x Hs Hx (e & He & Hep).
  - apply list_elem_of_singleton in He as ->.
    apply eqb_leb in Hep as [_ Hpx]. congruence.
  - assert (Hne : e <> x).
    { intros ->. apply eqb_leb in Hep as [_ Hpx]. congruence. }
    apply elem_of_cons in He as [-> | He]; [congruence | ].
    destruct (eqb_not_nan _ _ Hep) as [_ Hp].
    inversion Hs as [ | ? ? Hs' Hhd]; subst. inversion Hhd as [ | ? ? Hxy]; subst.
    unfold key_le in Hxy. destruct (leb_not_nan _ _ Hxy) as [Hnx Hny].
    assert (Hxp : PrimFloat.leb (rp x) p = true).
    { apply ltb_leb. apply leb_total; assumption. }
    destruct (PrimFloat.leb p (rp y)) eqn:Hy.
    + assert (Hyp : PrimFloat.eqb (rp y) p = true).
      { apply leb_antisym_eqb; [ | exact Hy].
        apply eqb_leb in Hep as [Hep _].
        apply elem_of_cons in He as [-> | He]; [exact Hep | ].
        pose proof (Sorted_head_le rp y l Hs') as Hall.
        rewrite list.Forall_forall in Hall.
        eapply leb_trans; [apply (Hall e He) | exact Hep]. }
      exists x, y. repeat split.
      * left.
      * right; left.
      * exact Hyp.
      * destruct (PrimFloat.eqb (rp x) (rp y)) eqn:Exy; [ | reflexivity].
        apply eqb_leb in Exy as [_ Hyx].
        pose proof (leb_trans _ _ _ Hy Hyx). congruence.
      * cbn [bracket]. rewrite Hxp, Hy. cbn [andb].
        destruct (PrimFloat.eqb (rp x) (rp y)) eqn:Exy; [ | reflexivity].
        apply eqb_leb in Exy as [_ Hyx].
        pose proof (leb_trans _ _ _ Hy Hyx). congruence.
    + destruct (IH y Hs' Hy) as (e0 & e1 & H0 & H1 & He1 & He01 & Hb); [eauto | ].
      exists e0, e1. repeat split; try assumption; try (right; assumption).
      cbn [bracket]. rewrite Hxp, Hy. cbn [andb]. exact Hb.
Qed.

Lemma valid_entries_Sorted (g : gmap string (list (gmap string value))) :
  Forall (fun e => not_nan (rp e)) (valid_entries g) ->
  Sorted (key_le rp) (valid_entries g).
Proof.
  intros Hnan. unfold valid_entries in *. apply sorted_Sorted.
  eapply Permutation_Forall; [apply sorted_Permutation | exact Hnan].
Qed.

Lemma filter_all {A : Type} (f : A -> bool) (l : list A) :
  Forall (fun x => f x = true) l -> List.filter f l = l.
Proof.
  induction 1 as [ | x l Hx _ IH]; cbn [List.filter]; [reflexivity | ].
  rewrite Hx, IH. reflexivity.
Qed.

Lemma valid_entries_ascending (g : gmap string (list (gmap string value))) :
  Forall (fun e => is_valid e = true) (default [] (g !! "best_splits")) ->
  Sorted (key_le rp) (default [] (g !! "best_splits")) ->
  valid_entries g = default [] (g !! "best_splits").
Proof.
  intros Hv Hs. unfold valid_entries.
  rewrite (filter_all _ _ Hv). apply sorted_id. exact Hs.
Qed.

(** C4 (amended).  With [V] the entries of [best_splits] that have both
    fields, in ascending order of progress, [interpolate_ghost_timer]
    returns [None] when [V] is empty; the timer of the first entry of [V]
    when the progress is at most its progress; otherwise the timer of the
    last entry when the progress is at least its progress.  When no progress
    of [V] is NaN: below the first entry it returns the first timer, above
    the last entry the last timer; strictly inside it returns, for an
    adjacent pair around the progress, the lower timer if both have the
    same progress and the interpolation expression otherwise; at the
    progress of an entry it returns the timer of an entry with that
    progress, or the interpolation expression whose upper end is such an
    entry; and it returns [None] only if the progress is NaN.  [V] is
    [best_splits] itself when that is ascending with both fields
    everywhere. *)
Theorem interpolate_ghost_timer_cases (g : gmap string (list (gmap string value)))
    (path : option string) (p : float) :
  let V := valid_entries g in
  let r := interpolate_ghost_timer (manager_of g path) p in
  (V = [] -> r = None) /\
  (forall first lst, head V = Some first -> last V = Some lst ->
     (PrimFloat.leb p (rp first) = true -> r = Some (float_of_int (tv first))) /\
     (PrimFloat.leb p (rp first) = false -> PrimFloat.leb (rp lst) p = true ->
      r = Some (float_of_int (tv lst))) /\
     (Forall (fun e => not_nan (rp e)) V ->
        (PrimFloat.ltb p (rp first) = true -> r = Some (float_of_int (tv first))) /\
        (PrimFloat.ltb (rp lst) p = true -> r = Some (float_of_int (tv lst))) /\
        (not_nan p ->
         PrimFloat.leb p (rp first) = false -> PrimFloat.leb (rp lst) p = false ->
         exists l1 e0 e1 l2,
           V = l1 ++ e0 :: e1 :: l2 /\
           PrimFloat.leb (rp e0) p = true /\ PrimFloat.leb p (rp e1) = true /\
           r = Some (if PrimFloat.eqb (rp e0) (rp e1) then float_of_int (tv e0)
                     else lerp (tv e0) (rp e0) (tv e1) (rp e1) p)) /\
        (forall e, e ∈ V -> PrimFloat.eqb (rp e) p = true ->
           exists e1, e1 ∈ V /\ PrimFloat.eqb (rp e1) p = true /\
             (r = Some (float_of_int (tv e1)) \/
              exists e0, e0 ∈ V /\ PrimFloat.eqb (rp e0) (rp e1) = false /\
                r = Some (lerp (tv e0) (rp e0) (tv e1) (rp e1) p))) /\
        (not_nan p -> r <> None))) /\
  (Forall (fun e => is_valid e = true) (default [] (g !! "best_splits")) ->
   Sorted (key_le rp) (default [] (g !! "best_splits")) ->
   V = default [] (g !! "best_splits")).
Proof.
  intros V r. subst r. rewrite interpolate_ghost_timer_unfold. fold V.
  split; [ | split].
  - intros ->. reflexivity.
  - intros first lst Hhead Hlast. rewrite Hhead, Hlast.
    destruct V as [ | x l] eqn:EV; [discriminate | ].
    cbn in Hhead. injection Hhead as ->.
    split; [intros ->; reflexivity | ].
    split; [intros -> ->; reflexivity | ].
    intros Hnan.
    assert (Hs : Sorted (key_le rp) (first :: l)).
    { rewrite <- EV. apply valid_entries_Sorted. fold V. rewrite EV. exact Hnan. }
    assert (Hfl : PrimFloat.leb (rp first) (rp lst) = true).
    { pose proof (Sorted_last_le rp _ _ Hs Hlast) as Hall.
      inversion Hall as [ | ? ? [-> | H] _]; subst; [ | exact H].
      inversion Hnan as [ | ? ? Hn _]; subst.
      destruct (float_cmp_cases _ _ Hn Hn); congruence. }
    assert (Hbr : not_nan p -> PrimFloat.leb p (rp first) = false ->
                  PrimFloat.leb (rp lst) p = false ->
                  exists l1 e0 e1 l2,
                    first :: l = l1 ++ e0 :: e1 :: l2 /\
                    PrimFloat.leb (rp e0) p = true /\ PrimFloat.leb p (rp e1) = true /\
                    bracket p (first :: l) =
                      Some (if PrimFloat.eqb (rp e0) (rp e1) then float_of_int (tv e0)
                            else lerp (tv e0) (rp e0) (tv e1) (rp e1) p)).
    { intros Hp H1 H2. eapply bracket_found; eauto. }
    split; [ | split; [ | split; [ | split]]].
    + intros Hlt. rewrite (ltb_leb _ _ Hlt). reflexivity.
    + intros Hlt.
      rewrite (ltb_not_leb _ _ (leb_ltb_trans _ _ _ Hfl Hlt)).
      rewrite (ltb_leb _ _ Hlt). reflexivity.
    + intros Hp H1 H2. rewrite H1, H2. apply Hbr; assumption.
    + intros e He Hep.
      destruct (PrimFloat.leb p (rp first)) eqn:H1.
      * exists first. split; [left | ]. split; [ | left; reflexivity].
        apply leb_antisym_eqb; [ | exact H1].
        apply eqb_leb in Hep as [Hep _].
        apply elem_of_cons in He as [-> | He]; [exact Hep | ].
        pose proof (Sorted_head_le rp _ _ Hs) as Hall.
        rewrite list.Forall_forall in Hall.
        eapply leb_trans; [apply (Hall e He) | exact Hep].
      * destruct (PrimFloat.leb (rp lst) p) eqn:H2.
        -- exists lst. split; [eapply last_Some_elem_of; exact Hlast | ].
           split; [ | left; reflexivity].
           apply leb_antisym_eqb; [exact H2 | ].
           apply eqb_leb in Hep as [_ Hpe].
           pose proof (Sorted_last_le rp _ _ Hs Hlast) as Hall.
           rewrite list.Forall_forall in Hall.
           destruct (Hall e He) as [-> | Hel]; [exact Hpe | ].
           eapply leb_trans; [exact Hpe | exact Hel].
        -- destruct (bracket_exact p l first Hs H1) as (e0 & e1 & H0 & He1 & Hp1 & H01 & Hb);
             [eauto | ].
           exists e1. split; [exact He1 | ]. split; [exact Hp1 | ].
           right. exists e0. auto.
    + intros Hp.
      destruct (PrimFloat.leb p (rp first)) eqn:H1; [discriminate | ].
      destruct (PrimFloat.leb (rp lst) p) eqn:H2; [discriminate | ].
      destruct (Hbr Hp eq_refl eq_refl) as (? & ? & ? & ? & _ & _ & _ & ->). discriminate.
  - apply valid_entries_ascending.
Qed.

(** Where the stated behaviour fails: no answer although [best_splits]
    is not empty (an entry without timer, a NaN progress), an answer that
    is not the timer of the entry at the queried progress, and a first
    entry that is not the entry of least progress. *)
Lemma interpolate_ghost_timer_not_as_stated :
  interpolate_ghost_timer
    (ghost_with [ {[ "race_completion_pct" := VFloat 50%float ]} ]) 50%float = None /\
  interpolate_ghost_timer (ghost_with scenario_best) nan = None /\
  (let best := [entry 0 0; entry (-1) 1; entry (2 ^ 53) 2; entry 0 3]%float in
   interpolate_ghost_timer (ghost_with best) 2%float = Some 9007199254740991%float /\
   float_of_int (2 ^ 53) = 9007199254740992%float) /\
  interpolate_ghost_timer (ghost_with [entry 5 80; entry 3 20]%float) 10%float
    = Some 3%float.
Proof. repeat split; vm_compute; reflexivity. Qed.

(** * Further properties of the ghost store *)

Lemma load_ghost_Json (self : GhostManager) (fs : gmap string node) (filepath : string)
    (doc : gmap string (list (gmap string value))) :
  fs !! filepath = Some (File true (Json doc)) ->
  (forall k, k ∈ required_keys -> is_Some (doc !! k)) ->
  load_ghost self fs filepath =
    (Ok doc, {| _active_ghost := Some doc; _active_path := Some filepath |}).
Proof.
  intros Hf Hk. pose proof (load_ghost_cases self fs filepath) as H. rewrite Hf in H.
  destruct H as [[(k & Hin & Hnone) _] | [_ H]]; [ | exact H].
  destruct (Hk k Hin) as [x Hx]. congruence.
Qed.


Lemma required_keys_insert (doc : gmap string (list (gmap string value)))
    (k : string) (l : list (gmap string value)) :
  (forall k', k' ∈ required_keys -> is_Some (doc !! k')) ->
  forall k', k' ∈ required_keys -> is_Some (<[k := l]> doc !! k').
Proof.
  intros H k' Hk'. rewrite lookup_insert. case_decide; [eauto | apply H, Hk'].
Qed.

Lemma EMPTY_GHOST_required (k : string) : k ∈ required_keys -> is_Some (EMPTY_GHOST !! k).
Proof.
  unfold required_keys, EMPTY_GHOST. intros Hk.
  repeat (apply elem_of_cons in Hk as [-> | Hk]).
  - rewrite lookup_insert_eq. eauto.
  - rewrite lookup_insert_ne by done. rewrite lookup_insert_eq. eauto.
  - rewrite !lookup_insert_ne by done. rewrite lookup_insert_eq. eauto.
  - inversion Hk.
Qed.

(** What [create_ghost] has done when it returns. *)
Lemma create_ghost_Ok (self : GhostManager) (fs : gmap string node)
    (filepath : string) (splits_config : option (list (gmap string value)))
    (ghost : gmap string (list (gmap string value))) :
  (create_ghost self fs filepath splits_config).1.1 = Ok ghost ->
  ghost = <["splits" := default [] splits_config]> EMPTY_GHOST /\
  exists r,
    create_ghost self fs filepath splits_config =
      (Ok ghost, {| _active_ghost := Some ghost; _active_path := Some filepath |},
       <[filepath := File r (Json ghost)]> fs).
Proof.
  unfold create_ghost, write_json.
  destruct (fs !! filepath) as [[ | r c] | ]; cbn [fst]; [discriminate | | ];
    intros [= <-]; (split; [reflexivity | ]); eexists; reflexivity.
Qed.

(** X1.  When [create_ghost] returns, it has written and made active the
    ghost it returns: its splits are the given list (none for [None] or an
    empty list) and its [best_splits] and [race_data] are empty, whatever
    the file held before; the new ghost has no ghost timer at any progress;
    and if the file written can be opened for reading, [load_ghost] returns
    this ghost again.  When it raises, the manager is left as it was. *)
Theorem create_ghost_returns (self : GhostManager) (fs : gmap string node)
    (filepath : string) (splits_config : option (list (gmap string value))) :
  let r := create_ghost self fs filepath splits_config in
  (forall ghost,
     r.1.1 = Ok ghost ->
     get_active_ghost r.1.2 = Some ghost /\ get_active_path r.1.2 = Some filepath /\
     ghost !! "splits" = Some (default [] splits_config) /\
     ghost !! "best_splits" = Some [] /\ ghost !! "race_data" = Some [] /\
     dom ghost = {[ "splits"; "best_splits"; "race_data" ]} /\
     get_splits r.1.2 = default [] splits_config /\
     (forall p, interpolate_ghost_timer r.1.2 p = None) /\
     (exists rd, r.2 !! filepath = Some (File rd (Json ghost))) /\
     ((forall c, r.2 !! filepath <> Some (File false c)) ->
      load_ghost r.1.2 r.2 filepath = (Ok ghost, r.1.2))) /\
  (forall e, r.1.1 = Raise e -> r.1.2 = self).
Proof.
  intros r. split.
  - intros ghost Hok. destruct (create_ghost_Ok _ _ _ _ _ Hok) as (Hg & rd & Hr).
    subst r. rewrite Hr. cbn [fst snd].
    assert (Hs : ghost !! "splits" = Some (default [] splits_config))
      by (rewrite Hg; apply lookup_insert_eq).
    assert (Hb : ghost !! "best_splits" = Some []).
    { rewrite Hg. unfold EMPTY_GHOST. rewrite !lookup_insert_ne by done.
      apply lookup_insert_eq. }
    assert (Hrace : ghost !! "race_data" = Some []).
    { rewrite Hg. unfold EMPTY_GHOST. rewrite !lookup_insert_ne by done.
      apply lookup_insert_eq. }
    split; [reflexivity | ]. split; [reflexivity | ].
    split; [exact Hs | ]. split; [exact Hb | ]. split; [exact Hrace | ].
    split; [ | split; [ | split; [ | split]]].
    + rewrite Hg. unfold EMPTY_GHOST. rewrite !dom_insert_L. set_solver.
    + unfold get_splits. cbn [_active_ghost]. rewrite Hs. reflexivity.
    + intros p. unfold interpolate_ghost_timer. cbn [_active_ghost]. rewrite Hb. reflexivity.
    + exists rd. apply lookup_insert_eq.
    + intros Hread. rewrite lookup_insert_eq in Hread.
      destruct rd; [ | exfalso; apply (Hread (Json ghost)); reflexivity].
      apply load_ghost_Json; [apply lookup_insert_eq | ].
      rewrite Hg. apply required_keys_insert. exact EMPTY_GHOST_required.
  - intros e. subst r. unfold create_ghost.
    destruct (write_json _ _ _); cbn [fst snd]; [discriminate | reflexivity].
Qed.

(** The splits [save_race_data] finds are the ones it leaves. *)
Lemma save_race_data_splits (self self1 : GhostManager) (fs fs1 : gmap string node)
    (filepath : string) (race_frames : list (gmap string value)) :
  save_race_data self fs filepath race_frames = (Ok tt, self1, fs1) ->
  get_splits self1 = configured_splits fs filepath /\
  configured_splits fs1 filepath = configured_splits fs filepath.
Proof.
  intros Hsave.
  destruct (load_or_initialise fs filepath) as [ghost | e] eqn:Hload.
  2:{ unfold save_race_data in Hsave. rewrite Hload in Hsave. discriminate. }
  assert (Hdir : fs !! filepath <> Some Dir).
  { intros Hd. unfold save_race_data in Hsave. rewrite Hload in Hsave.
    unfold write_json in Hsave. rewrite Hd in Hsave. discriminate. }
  destruct (save_race_data_from self fs filepath race_frames ghost Hload Hdir)
    as (r & Heq & Hr).
  rewrite Heq in Hsave. injection Hsave as <- <-.
  assert (Hupd : updated_ghost ghost race_frames !! "splits" = ghost !! "splits").
  { unfold updated_ghost. rewrite !lookup_insert_ne by done. reflexivity. }
  assert (Hcfg : configured_splits fs filepath = default [] (ghost !! "splits")).
  { unfold configured_splits. rewrite Hload. reflexivity. }
  rewrite Hcfg. split.
  - unfold get_splits. cbn [_active_ghost]. rewrite Hupd. reflexivity.
  - unfold configured_splits, load_or_initialise, isfile, read_json.
    rewrite lookup_insert_eq. destruct r.
    + rewrite Hupd. reflexivity.
    + cbn [is_OSError].
      assert (Hc : exists c, fs !! filepath = Some (File false c)).
      { destruct (fs !! filepath) as [[ | [ | ] c] | ] eqn:E.
        - congruence.
        - assert (false = true) by (apply Hr; intros c'; discriminate). discriminate.
        - eauto.
        - assert (false = true) by (apply Hr; intros c'; discriminate). discriminate. }
      destruct Hc as [c Hc]. unfold load_or_initialise, isfile, read_json in Hload.
      rewrite Hc in Hload. cbn in Hload. injection Hload as <-. reflexivity.
Qed.

(** X2.  Saving a race never changes the splits: after a
    [save_race_data] that returned, [get_splits] returns the splits that
    were configured in the file before the save ([[]] when there was no
    file or it could not be read as a ghost), the file written has the
    same splits, and so a second save leaves [get_splits] as it is. *)
Theorem save_race_data_keeps_splits (self self1 : GhostManager)
    (fs fs1 : gmap string node) (filepath : string)
    (race_frames : list (gmap string value)) :
  save_race_data self fs filepath race_frames = (Ok tt, self1, fs1) ->
  get_splits self1 = configured_splits fs filepath /\
  configured_splits fs1 filepath = configured_splits fs filepath /\
  forall race_frames2 self2 fs2,
    save_race_data self1 fs1 filepath race_frames2 = (Ok tt, self2, fs2) ->
    get_splits self2 = get_splits self1.
Proof.
  intros Hsave. destruct (save_race_data_splits _ _ _ _ _ _ Hsave) as [H1 H2].
  split; [exact H1 | ]. split; [exact H2 | ].
  intros race_frames2 self2 fs2 Hsave2.
  destruct (save_race_data_splits _ _ _ _ _ _ Hsave2) as [H3 _]. congruence.
Qed.

Lemma save_race_data_keeps_splits_witness :
  let fs : gmap string node :=
    {[ "ghost.json" :=
         File true (Json (<["splits" := scenario_splits]> EMPTY_GHOST)) ]} in
  let r := save_race_data GhostManager_init fs "ghost.json" scenario_run in
  r = (Ok tt, r.1.2, r.2) /\
  get_splits r.1.2 = configured_splits fs "ghost.json" /\
  configured_splits r.2 "ghost.json" = configured_splits fs "ghost.json" /\
  forall race_frames2 self2 fs2,
    save_race_data r.1.2 r.2 "ghost.json" race_frames2 = (Ok tt, self2, fs2) ->
    get_splits self2 = get_splits r.1.2.
Proof.
  intros fs r. assert (H : r = (Ok tt, r.1.2, r.2)) by reflexivity.
  split; [exact H | ].
  exact (save_race_data_keeps_splits GhostManager_init r.1.2 fs r.2 "ghost.json"
           scenario_run H).
Defined.



(** X4.  The splits given when a ghost is created are the regions of
    its first save: when [create_ghost] has returned, the file it wrote can
    be read, and [save_race_data] on that path has returned, the active
    ghost has the splits given at creation, the saved run as [race_data],
    and as [best_splits] the recomputation of the run against an empty
    best with these splits; the file holds this ghost and [load_ghost]
    returns it. *)
Theorem create_ghost_then_save_race_data (self self1 self2 : GhostManager)
    (fs fs1 fs2 : gmap string node) (filepath : string)
    (splits_config : option (list (gmap string value)))
    (ghost : gmap string (list (gmap string value)))
    (race_frames : list (gmap string value)) :
  create_ghost self fs filepath splits_config = (Ok ghost, self1, fs1) ->
  (forall c, fs1 !! filepath <> Some (File false c)) ->
  save_race_data self1 fs1 filepath race_frames = (Ok tt, self2, fs2) ->
  exists saved,
    get_active_ghost self2 = Some saved /\ get_active_path self2 = Some filepath /\
    saved !! "splits" = Some (default [] splits_config) /\
    saved !! "race_data" = Some race_frames /\
    saved !! "best_splits" =
      Some (_compute_best_splits [] race_frames (default [] splits_config)) /\
    fs2 !! filepath = Some (File true (Json saved)) /\
    load_ghost self2 fs2 filepath = (Ok saved, self2).
Proof.
  intros Hcreate Hread Hsave.
  assert (Hok : (create_ghost self fs filepath splits_config).1.1 = Ok ghost)
    by (rewrite Hcreate; reflexivity).
  destruct (create_ghost_Ok _ _ _ _ _ Hok) as (Hg & rd & Hr).
  rewrite Hr in Hcreate. injection Hcreate as <- <-.
  rewrite lookup_insert_eq in Hread.
  destruct rd; [ | exfalso; apply (Hread (Json ghost)); reflexivity].
  assert (Hs : ghost !! "splits" = Some (default [] splits_config))
    by (rewrite Hg; apply lookup_insert_eq).
  assert (Hb : ghost !! "best_splits" = Some []).
  { rewrite Hg. unfold EMPTY_GHOST. rewrite !lookup_insert_ne by done.
    apply lookup_insert_eq. }
  set (fs1 := <[filepath := File true (Json ghost)]> fs) in *.
  assert (Hload : load_or_initialise fs1 filepath = Ok ghost).
  { unfold load_or_initialise, isfile, read_json, fs1. rewrite lookup_insert_eq.
    reflexivity. }
  assert (Hdir : fs1 !! filepath <> Some Dir).
  { unfold fs1. rewrite lookup_insert_eq. discriminate. }
  destruct (save_race_data_from
              {| _active_ghost := Some ghost; _active_path := Some filepath |}
              fs1 filepath race_frames ghost Hload Hdir)
    as (r & Heq & Hrd).
  assert (r = true) as ->.
  { apply Hrd. intros c. unfold fs1. rewrite lookup_insert_eq. discriminate. }
  rewrite Heq in Hsave. injection Hsave as <- <-.
  exists (updated_ghost ghost race_frames).
  split; [reflexivity | ]. split; [reflexivity | ].
  split; [ | split; [ | split; [ | split]]].
  - unfold updated_ghost. rewrite !lookup_insert_ne by done. exact Hs.
  - unfold updated_ghost. rewrite lookup_insert_ne by done. apply lookup_insert_eq.
  - unfold updated_ghost. rewrite lookup_insert_eq, Hs, Hb. reflexivity.
  - apply lookup_insert_eq.
  - apply load_ghost_updated. rewrite Hs. eauto.
Qed.

Lemma create_ghost_then_save_race_data_witness :
  let ghost := <["splits" := scenario_splits]> EMPTY_GHOST in
  let c := create_ghost GhostManager_init ∅ "ghost.json" (Some scenario_splits) in
  let r := save_race_data c.1.2 c.2 "ghost.json" scenario_run in
  c = (Ok ghost, c.1.2, c.2) /\
  (forall x, c.2 !! "ghost.json" <> Some (File false x)) /\
  r = (Ok tt, r.1.2, r.2) /\
  exists saved,
    get_active_ghost r.1.2 = Some saved /\ get_active_path r.1.2 = Some "ghost.json" /\
    saved !! "splits" = Some (default [] (Some scenario_splits)) /\
    saved !! "race_data" = Some scenario_run /\
    saved !! "best_splits" =
      Some (_compute_best_splits [] scenario_run (default [] (Some scenario_splits))) /\
    r.2 !! "ghost.json" = Some (File true (Json saved)) /\
    load_ghost r.1.2 r.2 "ghost.json" = (Ok saved, r.1.2).
Proof.
  intros ghost c r.
  assert (H1 : c = (Ok ghost, c.1.2, c.2)) by reflexivity.
  assert (H2 : forall x, c.2 !! "ghost.json" <> Some (File false x)).
  { intros x. unfold c, create_ghost, write_json. rewrite lookup_empty. cbn [snd].
    rewrite lookup_insert_eq. discriminate. }
  assert (H3 : r = (Ok tt, r.1.2, r.2)) by reflexivity.
  split; [exact H1 | ]. split; [exact H2 | ]. split; [exact H3 | ].
  exact (create_ghost_then_save_race_data GhostManager_init c.1.2 r.1.2 ∅ c.2 r.2
           "ghost.json" (Some scenario_splits) ghost scenario_run H1 H2 H3).
Defined.

Lemma run_call_on_disk (st : GhostManager * gmap string node) (c : call) :
  write_raised st c = false ->
  on_disk st.1 st.2 -> on_disk (run_call st c).1 (run_call st c).2.
Proof.
  destruct st as [self fs]. cbn [fst snd]. intros Hok Hinv.
  destruct c as [p | p cfg | p frames | splits]; cbn [run_call write_raised fst snd] in *.
  - pose proof (load_ghost_cases self fs p) as H.
    destruct (fs !! p) as [[ | [ | ] [ | | d]] | ] eqn:E;
      try (rewrite H; exact Hinv).
    destruct H as [[_ H] | [_ H]]; rewrite H; [exact Hinv | ].
    unfold on_disk, get_active_ghost, get_active_path. cbn [snd _active_ghost _active_path].
    eauto.
  - destruct (create_ghost self fs p cfg) as [[[ghost | e] self1] fs1] eqn:E;
      [ | discriminate].
    assert (Hc : (create_ghost self fs p cfg).1.1 = Ok ghost) by (rewrite E; reflexivity).
    destruct (create_ghost_Ok _ _ _ _ _ Hc) as (_ & rd & Hr).
    rewrite Hr in E. injection E as <- <-. cbn [fst snd].
    unfold on_disk, get_active_ghost, get_active_path.
    cbn [_active_ghost _active_path]. rewrite lookup_insert_eq. eauto.
  - unfold save_race_data in *.
    destruct (load_or_initialise fs p) as [ghost | e]; [ | discriminate].
    unfold write_json in *.
    destruct (fs !! p) as [[ | rd c] | ]; cbn [fst snd] in *; [discriminate | | ];
      unfold on_disk, get_active_ghost, get_active_path;
      cbn [_active_ghost _active_path]; rewrite lookup_insert_eq; eauto.
  - unfold on_disk, get_active_ghost, get_active_path in *. unfold set_splits in *.
    destruct (_active_ghost self) as [g | ] eqn:Eg;
      destruct (_active_path self) as [p | ] eqn:Ep;
      cbn [fst snd] in *; rewrite ?Eg, ?Ep; try exact Hinv.
    unfold write_json in *.
    destruct (fs !! p) as [[ | rd c] | ]; cbn [fst snd raised] in *; [discriminate | | ];
      cbn [_active_ghost _active_path]; rewrite lookup_insert_eq; eauto.
Qed.

(** X5.  After any sequence of calls of [load_ghost], [create_ghost],
    [save_race_data] and [set_splits] on a new manager in which no call
    that writes has raised ([load_ghost] may have raised), the manager has
    an active ghost exactly when it has an active path, and the file at the
    active path holds the active ghost. *)
Theorem active_ghost_on_disk (fs : gmap string node) (calls : list call) :
  no_write_raised (GhostManager_init, fs) calls = true ->
  let st := fold_left run_call calls (GhostManager_init, fs) in
  on_disk st.1 st.2 /\
  (is_Some (get_active_ghost st.1) <-> is_Some (get_active_path st.1)).
Proof.
  intros Hok st.
  assert (H : on_disk st.1 st.2).
  { subst st. assert (H0 : on_disk (GhostManager_init, fs).1 (GhostManager_init, fs).2)
      by exact I.
    revert H0 Hok. generalize (GhostManager_init, fs).
    induction calls as [ | c calls IH]; intros st H0 Hok; cbn [fold_left]; [exact H0 | ].
    cbn [no_write_raised] in Hok. apply andb_true_iff in Hok as [Hc Hrest].
    apply negb_true_iff in Hc.
    apply IH; [ | exact Hrest]. apply run_call_on_disk; assumption. }
  split; [exact H | ].
  unfold on_disk in H.
  destruct (get_active_ghost st.1), (get_active_path st.1); try destruct H;
    split; intros Hsome; eauto; destruct Hsome; discriminate.
Qed.

Lemma active_ghost_on_disk_witness :
  no_write_raised (GhostManager_init, ∅) session = true /\
  let st := fold_left run_call session (GhostManager_init, ∅) in
  on_disk st.1 st.2 /\
  (is_Some (get_active_ghost st.1) <-> is_Some (get_active_path st.1)).
Proof.
  assert (H : no_write_raised (GhostManager_init, ∅) session = true) by reflexivity.
  split; [exact H | ].
  exact (active_ghost_on_disk ∅ session H).
Defined.

(** * Further properties of the best-split recomputation *)

Lemma dom_slim_entry (t : Z) (p : value) :
  dom (slim_entry t p) = ({[ "timer_value"; "race_completion_pct" ]} : gset string).
Proof. unfold slim_entry. rewrite !dom_insert_L. set_solver. Qed.

Lemma is_valid_slim_entry (t : Z) (p : float) : is_valid (slim_entry t (VFloat p)) = true.
Proof.
  unfold is_valid. rewrite timer_value_slim_entry, race_completion_pct_slim_entry.
  reflexivity.
Qed.

Lemma in_region_covers (s e : float) (n : value) (f : gmap string value) :
  in_region s e f = true <->
  exists p, race_completion_pct f = Some p /\ covers (s, e, n) p.
Proof.
  unfold in_region, covers, region_start, region_end. cbn [fst snd].
  destruct (race_completion_pct f) as [p | ].
  - rewrite andb_true_iff. split; [eauto | ]. intros (q & [= <-] & H). exact H.
  - split; [discriminate | ]. intros (q & [=] & _).
Qed.

(** What a region contributes: slim entries whose progress lies in the
    region. *)
Lemma region_step_entries (old_best new_frames : list (gmap string value))
    (b : float * float * value) :
  Forall (fun e => exists t p, e = slim_entry t (VFloat p) /\ covers b p)
         (region_step old_best new_frames [] b).
Proof.
  destruct b as [[s e'] n].
  assert (H : forall frames off,
             Forall (fun e => exists t p, e = slim_entry t (VFloat p) /\ covers (s, e', n) p)
                    (_slim (_frames_in_region frames s e') off)).
  { intros frames off. eapply Forall_impl; [apply _slim_in_region | ]. cbn beta.
    intros x [Hreg (t & p & ->)]. exists t, p. split; [reflexivity | ].
    apply (in_region_covers s e' n) in Hreg as (q & Hq & Hcov).
    rewrite race_completion_pct_slim_entry in Hq. injection Hq as <-. exact Hcov. }
  unfold region_step. cbn [app].
  destruct (_split_timer (_frames_in_region new_frames s e') e') as [nt | ]; [ | apply H].
  destruct (match _split_timer (_frames_in_region old_best s e') e' with
            | Some ot => nt <=? ot | None => true end); apply H.
Qed.

Lemma _compute_best_splits_valid (old_best new_frames splits : list (gmap string value)) :
  Forall (fun e => exists t p, e = slim_entry t (VFloat p) /\ not_nan p)
         (_compute_best_splits old_best new_frames splits) /\
  List.filter is_valid (_compute_best_splits old_best new_frames splits) =
    _compute_best_splits old_best new_frames splits.
Proof.
  assert (H : Forall (fun e => exists t p, e = slim_entry t (VFloat p) /\ not_nan p)
                (_compute_best_splits old_best new_frames splits)).
  { rewrite _compute_best_splits_concat. apply Forall_concat.
    apply list.Forall_forall. intros part Hpart.
    apply list_elem_of_fmap in Hpart as (b & -> & Hb).
    eapply Forall_impl; [apply region_step_entries | ]. cbn beta.
    intros e (t & p & -> & Hc & _). exists t, p. split; [reflexivity | ].
    apply leb_not_nan in Hc. tauto. }
  split; [exact H | ].
  apply filter_all. eapply Forall_impl; [exact H | ]. cbn beta.
  intros e (t & p & -> & _). apply is_valid_slim_entry.
Qed.

(** X6.  Every entry of a recomputed [best_splits] consists of exactly the
    two keys [timer_value] and [race_completion_pct], holding an int and a
    float that is not NaN and lies in one of the regions; so the filter of
    [interpolate_ghost_timer] drops none of them. *)
Theorem compute_best_splits_entries (old_best new_frames splits : list (gmap string value)) :
  let best := _compute_best_splits old_best new_frames splits in
  Forall (fun e =>
            exists t p,
              e = slim_entry t (VFloat p) /\
              dom e = {[ "timer_value"; "race_completion_pct" ]} /\
              timer_value e = Some t /\ race_completion_pct e = Some p /\
              not_nan p /\
              exists b, b ∈ boundaries splits /\ covers b p) best /\
  List.filter is_valid best = best.
Proof.
  intros best. split; [ | apply _compute_best_splits_valid].
  subst best. rewrite _compute_best_splits_concat. apply Forall_concat.
  apply list.Forall_forall. intros part Hpart.
  apply list_elem_of_fmap in Hpart as (b & -> & Hb).
  eapply Forall_impl; [apply region_step_entries | ]. cbn beta.
  intros e (t & p & -> & Hcov). exists t, p.
  split; [reflexivity | ]. split; [apply dom_slim_entry | ].
  split; [apply timer_value_slim_entry | ].
  split; [apply race_completion_pct_slim_entry | ].
  split; [ | exists b; split; assumption].
  destruct Hcov as [Hc _]. apply leb_not_nan in Hc. tauto.
Qed.

Lemma is_before_valid (at_pct : float) (f : gmap string value) :
  is_before at_pct f = is_valid f && PrimFloat.leb (rp f) at_pct.
Proof.
  unfold is_before, is_valid, rp.
  destruct (race_completion_pct f), (timer_value f); reflexivity.
Qed.

Lemma is_after_valid (at_pct : float) (f : gmap string value) :
  is_after at_pct f = is_valid f && PrimFloat.leb at_pct (rp f).
Proof.
  unfold is_after, is_valid, rp.
  destruct (race_completion_pct f), (timer_value f); reflexivity.
Qed.

Lemma filter_nil_iff {A : Type} (f : A -> bool) (l : list A) :
  List.filter f l = [] <-> Forall (fun x => f x = false) l.
Proof.
  induction l as [ | x l IH]; cbn [List.filter].
  - split; [constructor | reflexivity].
  - destruct (f x) eqn:E.
    + split; [discriminate | ]. intros H. inversion H; congruence.
    + rewrite IH. split; [constructor; assumption | ]. intros H. inversion H; assumption.
Qed.

Lemma filter_ext_Forall {A : Type} (f g : A -> bool) (l : list A) :
  Forall (fun x => f x = g x) l -> List.filter f l = List.filter g l.
Proof.
  induction 1 as [ | x l Hx _ IH]; cbn [List.filter]; [reflexivity | ].
  rewrite Hx, IH. reflexivity.
Qed.

(** X7.  [_split_timer] has no answer exactly when no frame can be
    compared with the boundary: for a boundary and frames without NaN,
    exactly when no frame has both a timer and a progress. *)
Theorem split_timer_None_iff (frames : list (gmap string value)) (at_pct : float) :
  not_nan at_pct ->
  Forall (fun f => is_valid f = true -> not_nan (rp f)) frames ->
  (_split_timer frames at_pct = None <-> List.filter is_valid frames = []).
Proof.
  intros Hat Hnan. rewrite _split_timer_None, !filter_nil_iff.
  rewrite list.Forall_forall in Hnan. rewrite !list.Forall_forall. split.
  - intros [Hb Ha] f Hf. specialize (Hb f Hf). specialize (Ha f Hf). specialize (Hnan f Hf).
    rewrite is_before_valid in Hb. rewrite is_after_valid in Ha.
    destruct (is_valid f); [ | reflexivity]. cbn [andb] in Hb, Ha.
    pose proof (leb_total _ _ (Hnan eq_refl) Hat Hb) as Hlt.
    apply ltb_leb in Hlt. congruence.
  - intros H. split; intros f Hf; rewrite ?is_before_valid, ?is_after_valid, (H f Hf);
      reflexivity.
Qed.

Lemma split_timer_None_iff_witness :
  not_nan 50%float /\
  Forall (fun f => is_valid f = true -> not_nan (rp f)) scenario_run /\
  (_split_timer scenario_run 50%float = None <-> List.filter is_valid scenario_run = []).
Proof.
  assert (H1 : not_nan 50%float) by reflexivity.
  assert (H2 : Forall (fun f => is_valid f = true -> not_nan (rp f)) scenario_run).
  { unfold scenario_run. repeat constructor. }
  split; [exact H1 | ]. split; [exact H2 | ].
  exact (split_timer_None_iff scenario_run 50%float H1 H2).
Defined.

(** X8.  Outside the run [_split_timer] does not extrapolate: at a
    boundary below every usable frame it returns the timer of the first
    usable frame, and at a boundary above every usable frame the timer of
    the last one; so a run that stops before the end of a region is timed
    at its last frame. *)
Theorem split_timer_outside (frames : list (gmap string value)) (at_pct : float) :
  (Forall (fun f => is_valid f = true -> PrimFloat.ltb at_pct (rp f) = true) frames ->
   _split_timer frames at_pct = tv <$> head (List.filter is_valid frames)) /\
  (Forall (fun f => is_valid f = true -> PrimFloat.ltb (rp f) at_pct = true) frames ->
   _split_timer frames at_pct = tv <$> last (List.filter is_valid frames)).
Proof.
  split; intros H; unfold _split_timer.
  - assert (Hb : List.filter (is_before at_pct) frames = []).
    { apply filter_nil_iff. eapply Forall_impl; [exact H | ]. cbn beta. intros f Hf.
      rewrite is_before_valid. destruct (is_valid f); [ | reflexivity].
      cbn [andb]. apply ltb_not_leb. auto. }
    assert (Ha : List.filter (is_after at_pct) frames = List.filter is_valid frames).
    { apply filter_ext_Forall. eapply Forall_impl; [exact H | ]. cbn beta. intros f Hf.
      rewrite is_after_valid. destruct (is_valid f); [ | reflexivity].
      cbn [andb]. apply ltb_leb. auto. }
    rewrite Hb, Ha. cbn [last]. destruct (head _); reflexivity.
  - assert (Ha : List.filter (is_after at_pct) frames = []).
    { apply filter_nil_iff. eapply Forall_impl; [exact H | ]. cbn beta. intros f Hf.
      rewrite is_after_valid. destruct (is_valid f); [ | reflexivity].
      cbn [andb]. apply ltb_not_leb. auto. }
    assert (Hb : List.filter (is_before at_pct) frames = List.filter is_valid frames).
    { apply filter_ext_Forall. eapply Forall_impl; [exact H | ]. cbn beta. intros f Hf.
      rewrite is_before_valid. destruct (is_valid f); [ | reflexivity].
      cbn [andb]. apply ltb_leb. auto. }
    rewrite Hb, Ha. cbn [head]. destruct (last _); reflexivity.
Qed.





(** X10.  Without splits, saving a run that has no usable frame (an empty
    run, for one) leaves a recomputed [best_splits] as it is. *)
Theorem compute_best_splits_empty_run_keeps
    (old_best new_frames empty_run : list (gmap string value)) :
  List.filter is_valid empty_run = [] ->
  let best := _compute_best_splits old_best new_frames [] in
  _compute_best_splits best empty_run [] = best.
Proof.
  intros Hempty best.
  assert (Hreg : Forall (fun x => in_region 0 100 x = true) best).
  { subst best. rewrite _compute_best_splits_concat, boundaries_no_splits.
    cbn [map concat]. rewrite app_nil_r.
    apply (region_step_in_region old_best new_frames (0%float, 100%float, VStr "Full Run")). }
  assert (Hslim : Forall is_slim best) by apply _compute_best_splits_slim.
  unfold _compute_best_splits at 1. rewrite boundaries_no_splits. cbn [fold_left].
  unfold region_step. cbn [app].
  assert (Hnone : _split_timer (_frames_in_region empty_run 0 100) 100 = None).
  { apply _split_timer_None. rewrite !filter_nil_iff.
    apply filter_nil_iff in Hempty. unfold _frames_in_region.
    split; apply Forall_filter_keeps; (eapply Forall_impl; [exact Hempty | ]); cbn beta;
      intros f Hf; rewrite ?is_before_valid, ?is_after_valid, Hf; reflexivity. }
  rewrite Hnone. unfold _frames_in_region. rewrite (filter_all _ _ Hreg).
  apply _slim_verbatim. exact Hslim.
Qed.

Lemma compute_best_splits_empty_run_keeps_witness :
  List.filter is_valid [] = [] /\
  _compute_best_splits (_compute_best_splits [] standing_start_run []) [] [] =
    _compute_best_splits [] standing_start_run [].
Proof.
  split; [reflexivity | ].
  exact (compute_best_splits_empty_run_keeps [] standing_start_run [] eq_refl).
Defined.

Lemma contiguous_covers (s e p : float) (bs : list (float * float * value)) :
  contiguous s bs e ->
  Forall (fun b => not_nan (region_end b)) bs ->
  PrimFloat.leb s p = true -> PrimFloat.leb p e = true ->
  exists b, b ∈ bs /\ covers b p.
Proof.
  induction 1 as [s e n | s m e n bs _ IH]; intros Hnan Hs He.
  - exists (s, e, n). split; [left | split; assumption].
  - destruct (PrimFloat.leb p m) eqn:Hm.
    + exists (s, m, n). split; [left | split; assumption].
    + inversion Hnan as [ | ? ? Hnm Hnan']; subst. cbn in Hnm.
      destruct (leb_not_nan _ _ Hs) as [_ Hp].
      pose proof (ltb_leb _ _ (leb_total _ _ Hp Hnm Hm)) as Hmp.
      destruct (IH Hnan' Hmp He) as (b & Hb & Hcov).
      exists b. split; [right; exact Hb | exact Hcov].
Qed.

Lemma boundaries_ends_not_nan (splits : list (gmap string value)) :
  Forall (fun sp => not_nan (race_completion sp)) splits ->
  Forall (fun b => not_nan (region_end b)) (boundaries splits).
Proof.
  intros Hnan. destruct (boundaries_regions splits) as [_ Hends].
  assert (H : Forall not_nan (map region_end (boundaries splits))).
  { rewrite Hends. apply Forall_app. split; [ | repeat constructor].
    apply List.Forall_forall. intros x Hx. apply in_map_iff in Hx as (sp & <- & Hsp).
    rewrite List.Forall_forall in Hnan. apply Hnan.
    apply (Permutation_in _ (sorted_Permutation race_completion splits)). exact Hsp. }
  rewrite List.Forall_forall in H. apply List.Forall_forall. intros b Hb.
  apply H. apply in_map. exact Hb.
Qed.

(** X11.  The regions leave no gap: when no configured split is NaN,
    every progress from 0 to 100 lies in at least one region, wherever the
    splits are. *)
Theorem boundaries_cover (splits : list (gmap string value)) (p : float) :
  Forall (fun sp => not_nan (race_completion sp)) splits ->
  PrimFloat.leb 0 p = true -> PrimFloat.leb p 100 = true ->
  exists b, b ∈ boundaries splits /\ covers b p.
Proof.
  intros Hnan H0 H100. destruct (boundaries_regions splits) as [Hc _].
  eapply contiguous_covers; [exact Hc | | exact H0 | exact H100].
  apply boundaries_ends_not_nan. exact Hnan.
Qed.

Lemma boundaries_cover_witness :
  Forall (fun sp => not_nan (race_completion sp)) scenario_splits /\
  PrimFloat.leb 0 50 = true /\ PrimFloat.leb 50 100 = true /\
  exists b, b ∈ boundaries scenario_splits /\ covers b 50%float.
Proof.
  assert (H : Forall (fun sp => not_nan (race_completion sp)) scenario_splits).
  { unfold scenario_splits. repeat constructor. }
  split; [exact H | ]. split; [reflexivity | ]. split; [reflexivity | ].
  exact (boundaries_cover scenario_splits 50%float H eq_refl eq_refl).
Defined.

(** A region in which the new run has a usable frame is not left empty. *)
Lemma region_step_nonempty (old_best new_frames : list (gmap string value))
    (s e : float) (n : value) (f : gmap string value) :
  f ∈ new_frames -> is_valid f = true -> in_region s e f = true ->
  region_step old_best new_frames [] (s, e, n) <> [].
Proof.
  intros Hf Hv Hreg.
  assert (Hin : In f (_frames_in_region new_frames s e)).
  { apply filter_In. split; [apply list_elem_of_In; exact Hf | exact Hreg]. }
  assert (Hslim : forall off, _slim (_frames_in_region new_frames s e) off <> []).
  { intros off. rewrite _slim_spec. intros Hnil.
    apply (f_equal (@length _)) in Hnil. rewrite length_map in Hnil.
    apply length_zero_iff_nil in Hnil.
    assert (Hin' : In f (List.filter (fun f => bool_decide (is_Some (timer_value f)))
                           (_frames_in_region new_frames s e))).
    { apply filter_In. split; [exact Hin | ]. apply bool_decide_eq_true.
      unfold is_valid in Hv. destruct (timer_value f); [eauto | discriminate]. }
    rewrite Hnil in Hin'. destruct Hin'. }
  unfold region_step. cbn [app].
  destruct (_split_timer (_frames_in_region new_frames s e) e) as [nt | ] eqn:En.
  - destruct (_split_timer (_frames_in_region old_best s e) e) as [ot | ] eqn:Eo;
      [ | apply Hslim].
    destruct (nt <=? ot); [apply Hslim | ].
    intros Hnil.
    assert (Ho : _split_timer (_frames_in_region old_best s e) e <> None) by congruence.
    apply Ho. apply _split_timer_None.
    assert (Hall : Forall (fun x => timer_value x = None) (_frames_in_region old_best s e)).
    { rewrite _slim_spec in Hnil. apply (f_equal (@length _)) in Hnil.
      rewrite length_map in Hnil. apply length_zero_iff_nil in Hnil.
      apply filter_nil_iff in Hnil. eapply Forall_impl; [exact Hnil | ]. cbn beta.
      intros x Hx. apply bool_decide_eq_false in Hx.
      destruct (timer_value x); [exfalso; apply Hx; eauto | reflexivity]. }
    rewrite !filter_nil_iff. split; (eapply Forall_impl; [exact Hall | ]); cbn beta;
      intros x Hx; unfold is_before, is_after; rewrite Hx;
      destruct (race_completion_pct x); reflexivity.
  - exfalso. apply _split_timer_None in En as [Hb _].
    apply filter_nil_iff in Hb. rewrite List.Forall_forall in Hb. specialize (Hb f Hin).
    rewrite is_before_valid, Hv in Hb. cbn [andb] in Hb.
    unfold in_region in Hreg. unfold is_valid in Hv. unfold rp in Hb.
    destruct (race_completion_pct f) as [p | ]; [ | discriminate].
    change (PrimFloat.leb p e = false) in Hb.
    apply andb_true_iff in Hreg as [_ Hp]. congruence.
Qed.

Lemma interpolate_ghost_timer_defined (g : gmap string (list (gmap string value)))
    (path : option string) (p : float) :
  valid_entries g <> [] -> Forall (fun e => not_nan (rp e)) (valid_entries g) ->
  not_nan p ->
  is_Some (interpolate_ghost_timer (manager_of g path) p).
Proof.
  intros Hne Hnan Hp. rewrite interpolate_ghost_timer_unfold.
  destruct (valid_entries g) as [ | x l] eqn:EV; [congruence | ].
  destruct (last_is_Some (x :: l)) as [_ [z Hz]]; [discriminate | ].
  rewrite Hz. cbn [head].
  destruct (PrimFloat.leb p (rp x)) eqn:H1; [eauto | ].
  destruct (PrimFloat.leb (rp z) p) eqn:H2; [eauto | ].
  destruct (bracket_found p l x z Hp Hnan Hz H1 H2) as (? & ? & ? & ? & _ & _ & _ & ->).
  eauto.
Qed.

(** X12.  After a successful save of a run that has at least one frame
    with a timer and a progress from 0 to 100, the ghost timer is defined at
    every progress that is not NaN (provided no configured split is NaN):
    the live comparison never lacks a ghost value. *)
Theorem ghost_timer_defined_after_save (self self1 : GhostManager)
    (fs fs1 : gmap string node) (filepath : string)
    (race_frames : list (gmap string value)) (f : gmap string value) (p : float) :
  save_race_data self fs filepath race_frames = (Ok tt, self1, fs1) ->
  Forall (fun sp => not_nan (race_completion sp)) (configured_splits fs filepath) ->
  f ∈ race_frames -> is_valid f = true -> in_region 0 100 f = true ->
  not_nan p ->
  is_Some (interpolate_ghost_timer self1 p).
Proof.
  intros Hsave Hsplits Hf Hv Hreg Hp.
  unfold save_race_data in Hsave. unfold configured_splits in Hsplits.
  destruct (load_or_initialise fs filepath) as [ghost | e]; [ | discriminate].
  fold (updated_ghost ghost race_frames) in Hsave.
  destruct (write_json fs filepath (updated_ghost ghost race_frames)) as [fs' | e];
    [ | discriminate].
  injection Hsave as <- _.
  set (old := default [] (ghost !! "best_splits")) in *.
  set (splits := default [] (ghost !! "splits")) in *.
  change {| _active_ghost := Some (updated_ghost ghost race_frames);
            _active_path := Some filepath |}
    with (manager_of (updated_ghost ghost race_frames) (Some filepath)).
  assert (Hbest : updated_ghost ghost race_frames !! "best_splits" =
                  Some (_compute_best_splits old race_frames splits)).
  { unfold updated_ghost. apply lookup_insert_eq. }
  destruct (_compute_best_splits_valid old race_frames splits) as [Hall Hfilter].
  assert (HV : valid_entries (updated_ghost ghost race_frames) =
               sorted rp (_compute_best_splits old race_frames splits)).
  { unfold valid_entries. rewrite Hbest. cbn [from_option id]. rewrite Hfilter.
    reflexivity. }
  apply interpolate_ghost_timer_defined; [ | | exact Hp]; rewrite HV.
  - intros Hnil.
    assert (Hperm := sorted_Permutation rp (_compute_best_splits old race_frames splits)).
    rewrite Hnil in Hperm. apply Permutation_nil in Hperm.
    unfold in_region in Hreg.
    destruct (race_completion_pct f) as [q | ] eqn:Eq; [ | discriminate].
    apply andb_true_iff in Hreg as [H0 H100].
    destruct (contiguous_covers 0 100 q (boundaries splits)
                (proj1 (boundaries_regions splits))
                (boundaries_ends_not_nan splits Hsplits) H0 H100)
      as ([[s e] n] & Hb & Hs & He).
    rewrite _compute_best_splits_concat in Hperm.
    assert (Hpart : region_step old race_frames [] (s, e, n) = []).
    { destruct (region_step old race_frames [] (s, e, n)) as [ | x l] eqn:E; [reflexivity | ].
      assert (Hx : In x (concat (map (region_step old race_frames []) (boundaries splits)))).
      { apply in_concat. exists (x :: l). split; [ | left; reflexivity].
        rewrite <- E. apply in_map. apply list_elem_of_In. exact Hb. }
      rewrite Hperm in Hx. destruct Hx. }
    revert Hpart. apply (region_step_nonempty old race_frames s e n f Hf Hv).
    unfold in_region. rewrite Eq. unfold region_start, region_end in Hs, He.
    cbn [fst snd] in Hs, He. rewrite Hs, He. reflexivity.
  - eapply Permutation_Forall; [symmetry; apply sorted_Permutation | ].
    eapply Forall_impl; [exact Hall | ]. cbn beta.
    intros x (t & q & -> & Hq). unfold rp. rewrite race_completion_pct_slim_entry.
    exact Hq.
Qed.

Lemma ghost_timer_defined_after_save_witness :
  let r := save_race_data GhostManager_init ∅ "ghost.json" scenario_run in
  r = (Ok tt, r.1.2, r.2) /\
  Forall (fun sp => not_nan (race_completion sp)) (configured_splits ∅ "ghost.json") /\
  frame 0 0 ∈ scenario_run /\ is_valid (frame 0 0) = true /\
  in_region 0 100 (frame 0 0) = true /\ not_nan 50%float /\
  is_Some (interpolate_ghost_timer r.1.2 50%float).
Proof.
  intros r.
  assert (H1 : r = (Ok tt, r.1.2, r.2)) by reflexivity.
  assert (H2 : Forall (fun sp => not_nan (race_completion sp))
                 (configured_splits ∅ "ghost.json")) by constructor.
  assert (H3 : frame 0 0 ∈ scenario_run) by left.
  assert (H4 : is_valid (frame 0 0) = true) by reflexivity.
  assert (H5 : in_region 0 100 (frame 0 0) = true) by reflexivity.
  assert (H6 : not_nan 50%float) by reflexivity.
  split; [exact H1 | ]. split; [exact H2 | ]. split; [exact H3 | ]. split; [exact H4 | ].
  split; [exact H5 | ]. split; [exact H6 | ].
  exact (ghost_timer_defined_after_save GhostManager_init r.1.2 ∅ r.2 "ghost.json"
           scenario_run (frame 0 0) 50%float H1 H2 H3 H4 H5 H6).
Defined.

(** * Further properties of the snapshot assembler *)

(** The two fields every snapshot reads, and the state the call leaves. *)
Lemma get_snapshot_always (self : DataExtractor) (proc : process) :
  let base := _read_race_data_ptr self proc in
  let timer := if base =? 0 then VNone else _read_timer self proc base in
  let progress := if base =? 0 then VNone else _read_race_progress self proc base in
  (get_snapshot self proc).1 !! "timer_value" = Some timer /\
  (get_snapshot self proc).1 !! "race_completion_pct" = Some progress /\
  (get_snapshot self proc).2 = (_has_physics_update (set_race_data_ptr self base) timer).2.
Proof.
  intros base timer progress. unfold get_snapshot. fold base.
  change (if base =? 0 then VNone
          else _read_timer (set_race_data_ptr self base) proc base) with timer.
  change (if base =? 0 then VNone
          else _read_race_progress (set_race_data_ptr self base) proc base) with progress.
  destruct (_has_physics_update (set_race_data_ptr self base) timer) as [tk self2].
  destruct tk; cbv beta iota zeta; unfold fst, snd; repeat split; lookup_key.
Qed.

Lemma get_snapshot_no_tick (self : DataExtractor) (proc : process) (k : string) :
  let base := _read_race_data_ptr self proc in
  let timer := if base =? 0 then VNone else _read_timer self proc base in
  (_has_physics_update (set_race_data_ptr self base) timer).1 = false ->
  k ∈ full_tier_keys -> (get_snapshot self proc).1 !! k = Some VNone.
Proof.
  intros base timer Htick Hk. unfold get_snapshot. fold base.
  change (if base =? 0 then VNone
          else _read_timer (set_race_data_ptr self base) proc base) with timer.
  destruct (_has_physics_update (set_race_data_ptr self base) timer) as [tk self2].
  cbn [fst] in Htick. subst tk. cbv beta iota zeta. unfold fst.
  unfold full_tier_keys in Hk.
  repeat (apply elem_of_cons in Hk as [-> | Hk]; [lookup_key | ]).
  inversion Hk.
Qed.

(** X13.  Two snapshots in a row of a target whose memory has not changed:
    the second repeats [timer_value] and [race_completion_pct] and leaves
    all thirteen other fields [None], and it changes nothing in the
    extractor. *)
Theorem get_snapshot_repeated (self : DataExtractor) (proc : process) :
  let first := get_snapshot self proc in
  let second := get_snapshot first.2 proc in
  second.1 !! "timer_value" = first.1 !! "timer_value" /\
  second.1 !! "race_completion_pct" = first.1 !! "race_completion_pct" /\
  (forall k, k ∈ full_tier_keys -> second.1 !! k = Some VNone) /\
  second.2 = first.2.
Proof.
  intros first second.
  destruct (get_snapshot_always self proc) as (Ht1 & Hp1 & Hs1).
  destruct (get_snapshot_always first.2 proc) as (Ht2 & Hp2 & Hs2).
  fold first in Ht1, Hp1, Hs1. fold second in Ht2, Hp2, Hs2.
  set (base := _read_race_data_ptr self proc) in *.
  set (timer := if base =? 0 then VNone else _read_timer self proc base) in *.
  assert (Hpm : _pm first.2 = _pm self /\
                 _p_race_data_slot first.2 = _p_race_data_slot self).
  { rewrite Hs1. unfold _has_physics_update. destruct timer; split; reflexivity. }
  destruct Hpm as [Hpm Hslot].
  assert (Hbase : _read_race_data_ptr first.2 proc = base).
  { unfold base, _read_race_data_ptr. rewrite Hpm, Hslot. reflexivity. }
  rewrite Hbase in Ht2, Hp2, Hs2.
  assert (Htimer : (if base =? 0 then VNone else _read_timer first.2 proc base) = timer).
  { unfold timer, _read_timer, with_pm. rewrite Hpm. reflexivity. }
  rewrite Htimer in Ht2, Hs2.
  assert (Hprog : (if base =? 0 then VNone else _read_race_progress first.2 proc base) =
                  (if base =? 0 then VNone else _read_race_progress self proc base)).
  { unfold _read_race_progress, with_pm. rewrite Hpm. reflexivity. }
  rewrite Hprog in Hp2.
  assert (Hupd : _has_physics_update (set_race_data_ptr first.2 base) timer =
                 (false, first.2)).
  { rewrite Hs1. unfold _has_physics_update.
    destruct timer as [ | t | x | s]; cbn [snd set_race_data_ptr set_last_timer_value
        _last_timer_value _pm _module_base _p_race_data_slot _p_checkpoint_slot
        _race_data_ptr _checkpoint_ptr]; rewrite ?Z.eqb_refl; reflexivity. }
  split; [congruence | ]. split; [congruence | ]. split.
  - intros k Hk. subst second. apply get_snapshot_no_tick; [ | exact Hk].
    rewrite Hbase, Htimer, Hupd. reflexivity.
  - rewrite Hs2, Hupd. reflexivity.
Qed.

Lemma get_snapshot_base_0 (self : DataExtractor) (proc : process) :
  _read_race_data_ptr self proc = 0 ->
  get_snapshot self proc = (EMPTY_FRAME, set_race_data_ptr self 0).
Proof.
  intros Hbase. unfold get_snapshot. rewrite Hbase.
  change (0 =? 0) with true. cbv beta iota zeta.
  unfold _has_physics_update. cbn [fst snd]. f_equal.
Qed.

(** X14.  Without a captured pointer there is no data: when the pointer
    slot cannot be read or holds 0 (no process handle, no hook installed,
    nothing captured yet), the snapshot is [EMPTY_FRAME], and the call
    only records the null pointer. *)
Theorem get_snapshot_null_pointer (self : DataExtractor) (proc : process) :
  (_read_race_data_ptr self proc = 0 <->
   _pm self = None \/ _p_race_data_slot self = None \/
   exists slot, _p_race_data_slot self = Some slot /\
     (read_longlong proc slot = None \/ read_longlong proc slot = Some 0)) /\
  (_read_race_data_ptr self proc = 0 ->
   get_snapshot self proc = (EMPTY_FRAME, set_race_data_ptr self 0)).
Proof.
  split.
  - unfold _read_race_data_ptr.
    destruct (_p_race_data_slot self) as [slot | ]; [ | tauto].
    destruct (_pm self) as [pm | ]; [ | tauto].
    destruct (read_longlong proc slot) as [v | ] eqn:E; cbn [default from_option id].
    + split.
      * intros ->. right; right. exists slot. auto.
      * intros [[=] | [[=] | (slot' & [= <-] & [H | H])]]; congruence.
    + split; [ | reflexivity]. intros _. right; right. exists slot. auto.
  - apply get_snapshot_base_0.
Qed.

(** X15.  The gear is read at the offset of the timer: on a physics tick
    the [gear] field of a snapshot equals its [timer_value] (when the
    target's memory does not change during the call), and without a tick
    it is [None]. *)
Theorem get_snapshot_gear_is_timer (self : DataExtractor) (proc : process) :
  let base := _read_race_data_ptr self proc in
  let timer := if base =? 0 then VNone else _read_timer self proc base in
  let tick := (_has_physics_update (set_race_data_ptr self base) timer).1 in
  let snap := (get_snapshot self proc).1 in
  OFFSET_GEAR = OFFSET_RACE_TIMER /\
  (tick = false -> snap !! "gear" = Some VNone) /\
  (tick = true ->
   exists t, snap !! "gear" = Some (VInt t) /\ snap !! "timer_value" = Some (VInt t)).
Proof.
  intros base timer tick snap. split; [reflexivity | ]. split.
  - intros Htick. apply get_snapshot_no_tick; [exact Htick | ].
    unfold full_tier_keys. repeat (apply elem_of_cons; first [ left; reflexivity | right ]).
  - intros Htick. apply _has_physics_update_true in Htick as (t & Ht & Hne).
    exists t. destruct (get_snapshot_always self proc) as (Htv & _ & _).
    fold base timer snap in Htv. rewrite Ht in Htv. split; [ | exact Htv].
    subst snap. unfold get_snapshot. fold base.
    change (if base =? 0 then VNone
            else _read_timer (set_race_data_ptr self base) proc base) with timer.
    rewrite Ht. unfold _has_physics_update.
    destruct (negb (t =? _last_timer_value (set_race_data_ptr self base))) eqn:E.
    + cbv beta iota zeta. unfold fst. lookup_key.
      subst timer. destruct (base =? 0); [discriminate | ].
      unfold _read_timer, _read_gear, with_pm in *.
      cbn [_pm set_last_timer_value set_race_data_ptr].
      change OFFSET_GEAR with OFFSET_RACE_TIMER. rewrite Ht. reflexivity.
    + apply negb_false_iff, Z.eqb_eq in E. contradiction.
Qed.

(** * The bytes of the trampoline injection *)

Lemma lookup_write_bytes (bs : list byte) (m : gmap Z byte) (a : Z) (i : nat) (b : byte) :
  bs !! i = Some b -> write_bytes m a bs !! (a + Z.of_nat i) = Some b.
Proof.
  revert m a i. induction bs as [ | b0 bs IH]; intros m a i Hi; [discriminate | ].
  cbn [write_bytes]. destruct i as [ | i].
  - injection Hi as ->. rewrite write_bytes_outside by lia.
    rewrite Z.add_0_r. apply lookup_insert_eq.
  - replace (a + Z.of_nat (S i)) with (a + 1 + Z.of_nat i) by lia. apply IH. exact Hi.
Qed.

Lemma read_bytes_pointwise (proc : process) (bs : list byte) (a : Z) :
  (forall i b, bs !! i = Some b -> mem proc !! (a + Z.of_nat i) = Some b) ->
  read_bytes proc a (length bs) = Some bs.
Proof.
  revert a. induction bs as [ | b bs IH]; intros a H; cbn [length read_bytes];
    [reflexivity | ].
  pose proof (H 0%nat b eq_refl) as H0.
  replace (a + Z.of_nat 0) with a in H0 by lia.
  rewrite H0, IH; [reflexivity | ].
  intros i b' Hi. replace (a + 1 + Z.of_nat i) with (a + Z.of_nat (S i)) by lia.
  apply H. exact Hi.
Qed.



Lemma byte_to_Z_of_Z (z : Z) : byte_to_Z (byte_of_Z z) = z mod 256.
Proof.
  unfold byte_to_Z, byte_of_Z.
  pose proof (Z.mod_pos_bound z 256 ltac:(lia)) as Hb.
  destruct (Byte.of_N (Z.to_N (z mod 256))) as [b | ] eqn:E.
  - cbn [default from_option id]. apply Byte.to_of_N in E. rewrite E. lia.
  - apply Byte.of_N_None_iff in E. lia.
Qed.

Lemma le_to_Z_to_le (n : nat) (z : Z) : le_to_Z (Z_to_le n z) = z mod 256 ^ Z.of_nat n.
Proof.
  revert z. induction n as [ | n IH]; intros z; cbn [Z_to_le le_to_Z].
  - change (256 ^ Z.of_nat 0) with 1. rewrite Z.mod_1_r. reflexivity.
  - rewrite byte_to_Z_of_Z, IH.
    replace (256 ^ Z.of_nat (S n)) with (256 * 256 ^ Z.of_nat n)
      by (rewrite Nat2Z.inj_succ, Z.pow_succ_r by lia; reflexivity).
    rewrite Z.rem_mul_r by lia. reflexivity.
Qed.

Lemma to_signed_32_mod (v : Z) :
  - 2 ^ 31 <= v < 2 ^ 31 -> to_signed 32 (v mod 2 ^ 32) = v.
Proof.
  intros Hv. unfold to_signed. change (32 - 1) with 31.
  destruct (Z.ltb_spec (v mod 2 ^ 32) (2 ^ 31)) as [Hlt | Hge].
  - destruct (Z.le_gt_cases 0 v) as [H0 | H0].
    + apply Z.mod_small. lia.
    + exfalso. replace v with (v + 2 ^ 32 - 1 * 2 ^ 32) in Hlt by lia.
      rewrite Zminus_mod, Z_mod_mult, Z.sub_0_r, Zmod_mod in Hlt.
      rewrite Z.mod_small in Hlt by lia. lia.
  - destruct (Z.le_gt_cases 0 v) as [H0 | H0].
    + rewrite Z.mod_small in Hge by lia. lia.
    + replace v with (v + 2 ^ 32 - 1 * 2 ^ 32) at 1 by lia.
      rewrite Zminus_mod, Z_mod_mult, Z.sub_0_r, Zmod_mod.
      rewrite Z.mod_small by lia. lia.
Qed.

Lemma pack_i_decode (v : Z) (bs : list byte) :
  pack_i v = Some bs -> length bs = 4%nat /\ to_signed 32 (le_to_Z bs) = v.
Proof.
  intros H. split; [exact (pack_i_length v bs H) | ].
  assert (Hv : - 2 ^ 31 <= v < 2 ^ 31) by (apply pack_i_iff; eauto).
  unfold pack_i in H. destruct (_ && _); [ | discriminate].
  assert (Hbs : bs = Z_to_le 4 (v mod 2 ^ 32)) by congruence. rewrite Hbs.
  rewrite le_to_Z_to_le. change (256 ^ Z.of_nat 4) with (2 ^ 32).
  rewrite Zmod_mod. apply to_signed_32_mod. exact Hv.
Qed.


Lemma read_bytes_written (proc : process) (addr : Z) (bs : list byte) :
  write_ok proc = true ->
  read_bytes (WriteProcessMemory proc addr bs).2 addr (length bs) = Some bs.
Proof.
  intros Hw. unfold WriteProcessMemory. rewrite Hw. cbn [snd].
  apply read_bytes_pointwise. intros i b Hi. cbn [mem]. apply lookup_write_bytes. exact Hi.
Qed.

(** X16.  What [struct.pack("<i", v)] writes, [read_int] reads back: the
    four bytes of a signed 32-bit value, written to the target with
    [WriteProcessMemory], are read as that value at that address. *)
Theorem pack_i_read_int (proc : process) (addr v : Z) (bs : list byte) :
  write_ok proc = true -> pack_i v = Some bs ->
  read_bytes (WriteProcessMemory proc addr bs).2 addr 4 = Some bs /\
  read_int (WriteProcessMemory proc addr bs).2 addr = Some v.
Proof.
  intros Hw Hp. apply pack_i_decode in Hp as [Hlen Hv].
  pose proof (read_bytes_written proc addr bs Hw) as Hr. rewrite Hlen in Hr.
  split; [exact Hr | ]. unfold read_int. rewrite Hr. cbn [fmap option_fmap option_map].
  rewrite Hv. reflexivity.
Qed.

Lemma pack_i_read_int_witness :
  write_ok empty_process = true /\ pack_i (-2) = Some [xfe; xff; xff; xff] /\
  read_bytes (WriteProcessMemory empty_process 0x1000 [xfe; xff; xff; xff]).2 0x1000 4
    = Some [xfe; xff; xff; xff] /\
  read_int (WriteProcessMemory empty_process 0x1000 [xfe; xff; xff; xff]).2 0x1000
    = Some (-2).
Proof.
  split; [reflexivity | ]. split; [reflexivity | ].
  exact (pack_i_read_int empty_process 0x1000 (-2) [xfe; xff; xff; xff] eq_refl eq_refl).
Defined.





(** * Properties of the hook set-up *)













(** * Properties of the race-start poll *)

Lemma shows_progress_iff (self : DataExtractor) (proc : process) :
  shows_progress self proc <->
  _read_race_data_ptr self proc <> 0 /\
  exists progress,
    _read_race_progress self proc (_read_race_data_ptr self proc) = VFloat progress /\
    PrimFloat.leb 0 progress = true.
Proof.
  unfold shows_progress.
  destruct (get_snapshot_always self proc) as (_ & Hp & _). rewrite Hp.
  destruct (Z.eqb_spec (_read_race_data_ptr self proc) 0) as [H0 | H0].
  - split.
    + intros (p & [=] & _).
    + intros [H _]. congruence.
  - split.
    + intros (p & [= Hq] & Hle). split; [exact H0 | eauto].
    + intros (_ & p & Hq & Hle). exists p. rewrite Hq. auto.
Qed.

(** X20.  [wait_for_race_start] returns, and then [True], exactly when at
    one of its polls a snapshot of the target would carry a progress of at
    least 0: a null pointer, an unreadable progress, a negative one or a
    NaN keep it waiting, and it never returns [False]. *)
Theorem wait_for_race_start_detects (self : DataExtractor) (targets : list process) :
  (wait_for_race_start self targets = Some true <->
   exists proc, proc ∈ targets /\ shows_progress self proc) /\
  (wait_for_race_start self targets = None <->
   forall proc, proc ∈ targets -> ~ shows_progress self proc) /\
  wait_for_race_start self targets <> Some false.
Proof.
  induction targets as [ | proc targets (IH1 & IH2 & IH3)]; cbn [wait_for_race_start].
  - split; [ | split; [ | discriminate]].
    + split; [discriminate | ]. intros (proc & Hin & _). inversion Hin.
    + split; [ | reflexivity]. intros _ proc Hin. inversion Hin.
  - pose proof (shows_progress_iff self proc) as Hsp.
    assert (Hdec : (negb (_read_race_data_ptr self proc =? 0) = true /\
                    exists progress,
                      _read_race_progress self proc (_read_race_data_ptr self proc)
                        = VFloat progress /\ PrimFloat.leb 0 progress = true) \/
                   ~ shows_progress self proc).
    { destruct (Z.eqb_spec (_read_race_data_ptr self proc) 0) as [H0 | H0].
      - right. rewrite Hsp. tauto.
      - destruct (_read_race_progress self proc (_read_race_data_ptr self proc))
          as [ | n | x | s] eqn:E;
          try solve [right; rewrite Hsp; intros (_ & p & Hp & _); discriminate Hp].
        destruct (PrimFloat.leb 0 x) eqn:Hx.
        + left. split; [reflexivity | eauto].
        + right. rewrite Hsp. intros (_ & p & [= <-] & Hle). congruence. }
    destruct Hdec as [(Hb & p & Hp & Hle) | Hno].
    + rewrite Hb, Hp, Hle.
      assert (Hyes : shows_progress self proc).
      { apply Hsp. split; [ | eauto]. apply negb_true_iff, Z.eqb_neq in Hb. exact Hb. }
      split; [ | split; [ | discriminate]].
      * split; [ | reflexivity]. intros _. exists proc. split; [left | exact Hyes].
      * split; [discriminate | ]. intros H. exfalso. apply (H proc); [left | exact Hyes].
    + assert (Hskip :
        (if negb (_read_race_data_ptr self proc =? 0) then
           match _read_race_progress self proc (_read_race_data_ptr self proc) with
           | VFloat progress =>
               if PrimFloat.leb 0 progress then Some true
               else wait_for_race_start self targets
           | _ => wait_for_race_start self targets
           end
         else wait_for_race_start self targets) = wait_for_race_start self targets).
      { destruct (Z.eqb_spec (_read_race_data_ptr self proc) 0) as [H0 | H0];
          cbn [negb]; [reflexivity | ].
        destruct (_read_race_progress self proc (_read_race_data_ptr self proc))
          as [ | n | x | s] eqn:E; try reflexivity.
        destruct (PrimFloat.leb 0 x) eqn:Hx; [ | reflexivity].
        exfalso. apply Hno. apply Hsp. split; [exact H0 | eauto]. }
      rewrite Hskip. split; [ | split; [ | exact IH3]].
      * rewrite IH1. split.
        -- intros (q & Hin & Hq). exists q. split; [right; exact Hin | exact Hq].
        -- intros (q & Hin & Hq). apply elem_of_cons in Hin as [-> | Hin];
             [contradiction | eauto].
      * rewrite IH2. split.
        -- intros H q Hin. apply elem_of_cons in Hin as [-> | Hin]; [exact Hno | auto].
        -- intros H q Hin. apply H. right. exact Hin.
Qed.

(** * Properties of the recording loop *)

Lemma detect_race_end_False (self : DataExtractor) (proc : process)
    (gm : GhostManager) (fs : gmap string node)
    (ghost_filepath : string) (frames : list (gmap string value)) :
  detect_race_end self proc gm fs ghost_filepath frames = (Ok false, gm, fs).
Proof. unfold detect_race_end. destruct (_ =? 0); reflexivity. Qed.

Lemma record_step_goes_on (active_ghost_path : option string) (st : recording)
    (target : process * process) :
  record_step active_ghost_path st target =
    (None,
     {| extractor := (get_snapshot (extractor st) target.1).2;
        ghost_manager := ghost_manager st; disk := disk st;
        race_frames := race_frames st ++ [(get_snapshot (extractor st) target.1).1] |}).
Proof.
  unfold record_step. destruct (get_snapshot (extractor st) target.1) as [snapshot self].
  cbn [fst snd]. destruct active_ghost_path as [path | ]; [ | reflexivity].
  destruct (bool_decide (path = "")); [reflexivity | ].
  rewrite detect_race_end_False. reflexivity.
Qed.

(** X21.  As written, a race is never ended and never saved:
    [detect_race_end] returns [False] for every state of the target and
    writes nothing, so the recording loop of [race_loop] has not left after
    any number of turns, the ghost manager and the disk are as they were,
    and the list of frames has grown by one snapshot for every turn. *)
Theorem record_loop_never_saves (active_ghost_path : option string) (st : recording)
    (targets : list (process * process)) :
  let r := record_loop active_ghost_path st targets in
  r.1 = None /\
  ghost_manager r.2 = ghost_manager st /\ disk r.2 = disk st /\
  (exists snapshots,
     race_frames r.2 = race_frames st ++ snapshots /\
     length snapshots = length targets) /\
  forall self proc gm fs path frames,
    detect_race_end self proc gm fs path frames = (Ok false, gm, fs).
Proof.
  intros r. split; [ | split; [ | split; [ | split]]];
    try (intros; apply detect_race_end_False); subst r;
    revert st; induction targets as [ | target targets IH]; intros st; cbn [record_loop];
    try reflexivity; try rewrite record_step_goes_on.
  - apply IH.
  - rewrite IH. reflexivity.
  - rewrite IH. reflexivity.
  - exists []. rewrite app_nil_r. split; reflexivity.
  - destruct (IH {| extractor := (get_snapshot (extractor st) target.1).2;
                    ghost_manager := ghost_manager st; disk := disk st;
                    race_frames := race_frames st ++
                                     [(get_snapshot (extractor st) target.1).1] |})
      as (snaps & Heq & Hlen).
    exists ((get_snapshot (extractor st) target.1).1 :: snaps).
    rewrite Heq. cbn [race_frames length]. rewrite <- app_assoc. split; [reflexivity | ].
    rewrite Hlen. reflexivity.
Qed.
